(** * bgs: the federation relay of indigo (bgs/bgs.go)

    A shallow embedding of [handleAddTarget], [EventsHandler],
    [lookupUserByDid], [handleFedEvent] and [createExternalUser].

    The relay talks to collaborators whose code lives elsewhere: the PLC
    directory, the peers reached over XRPC, the repository manager, the
    indexer with its crawler, the slurper, the event manager, the websocket
    connection and Go's [net/url].  Each of them is a field of an
    environment record, so every theorem below holds whatever they answer.
    The gorm database is modelled as three tables; every query can also fail
    with an error chosen by the environment. *)

From Stdlib Require Import String Ascii ZArith List Bool Lia.
Import ListNotations.
Open Scope string_scope.
Open Scope Z_scope.

(** ** Go errors *)

(** The two package-level error values the file compares against. *)
Inductive sentinel : Type :=
| ErrRecordNotFound     (* gorm.ErrRecordNotFound *)
| ErrRepoBaseMismatch.  (* carstore.ErrRepoBaseMismatch *)

Definition sentinel_eqb (a b : sentinel) : bool :=
  match a, b with
  | ErrRecordNotFound, ErrRecordNotFound => true
  | ErrRepoBaseMismatch, ErrRepoBaseMismatch => true
  | _, _ => false
  end.

(** An error value.  [Errorf_w] is [fmt.Errorf] with the verb [%w], which
    keeps the operand in the chain; [Errorf_s] is [fmt.Errorf] with [%s],
    which keeps only its text. *)
Inductive error : Type :=
| Sentinel (s : sentinel)
| New (msg : string)
| Errorf_s (prefix : string) (arg : error)
| Errorf_w (prefix : string) (arg : error).

(** [errors.Is(err, target)] for a sentinel target: walk the chain. *)
Fixpoint errors_Is (err : error) (target : sentinel) : bool :=
  match err with
  | Sentinel s => sentinel_eqb s target
  | New _ => false
  | Errorf_s _ _ => false
  | Errorf_w _ inner => errors_Is inner target
  end.

(** How a Go call ends: a value, a returned error, or a run-time panic. *)
Inductive outcome (A : Type) : Type :=
| Ret (a : A)
| Fail (e : error)
| Panic.
Arguments Ret {A} a.
Arguments Fail {A} e.
Arguments Panic {A}.

(** ** Data *)

Module PDS.
Record t : Type := mk { ID : Z; Host : string; Did : string }.
Definition zero : t := mk 0 "" "".
End PDS.

Module User.
Record t : Type := mk { ID : Z; Handle : string; Did : string; PDS : Z }.
Definition zero : t := mk 0 "" "" 0.
End User.

Module ActorInfo.
Record t : Type := mk {
  Uid : Z;
  Handle : string;
  DisplayName : string;
  Did : string;
  DeclRefCid : string;
  Type_ : string;
  PDS : Z
}.
End ActorInfo.

Module RepoOp.
Record t : Type := mk { Kind : string; Col : string; Rkey : string }.
End RepoOp.

Module RepoAppend.
Record t : Type := mk {
  Prev : option string;
  Ops : list RepoOp.t;
  Car : list Byte.byte
}.
End RepoAppend.

Module RepoEvent.
Record t : Type := mk {
  Seq : Z;
  Repo : string;
  RepoAppend : option RepoAppend.t
}.
End RepoEvent.

Module Service.
Record t : Type := mk { ServiceEndpoint : string }.
End Service.

Module Doc.
Record t : Type := mk { Service : list Service.t; AlsoKnownAs : list string }.
End Doc.

Module URL.
Record t : Type := mk { Scheme : string; Host : string; Path : string }.
Definition set_Scheme (scheme : string) (u : t) : t := mk scheme (Host u) (Path u).
End URL.

Module DeclRef.
Record t : Type := mk { Cid : string }.
End DeclRef.

(** The profile a peer reports; [DisplayName] is a pointer in the source. *)
Module Profile.
Record t : Type := mk {
  Handle : string;
  DisplayName : option string;
  Declaration : DeclRef.t
}.
End Profile.

Module Client.
Record t : Type := mk { Host : string }.
End Client.

Module addTargetBody.
Record t : Type := mk { Host : string }.
End addTargetBody.

(** ** The world around the relay *)

(** The database statements the file issues. *)
Inductive db_op : Type :=
| FindUser (did : string)
| FindPDS (host : string)
| CreatePDS (p : PDS.t)
| CreateUser (u : User.t)
| CreateActorInfo (a : ActorInfo.t).

(** Calls to collaborators that have an effect, in the order they are made. *)
Inductive call : Type :=
| CallHandleResolve (c : Client.t) (handle : string)
| CallHandleExternalUserEvent (pds uid : Z) (prev : option string)
    (ops : list RepoOp.t) (car : list Byte.byte)
| CallAddToCatchupQueue (host : PDS.t) (ai : ActorInfo.t) (evt : RepoEvent.t)
| CallSubscribeToPds (host : string).

Record Env : Type := {
  GetDocument : string -> error + Doc.t;
  url_Parse : string -> error + URL.t;
  url_String : URL.t -> string;
  HandleResolve : Client.t -> string -> error + string;
  ActorGetProfile : Client.t -> string -> error + Profile.t;
  HandleExternalUserEvent :
    Z -> Z -> option string -> list RepoOp.t -> list Byte.byte -> option error;
  LookupUser : list ActorInfo.t -> Z -> error + ActorInfo.t;
  AddToCatchupQueue : PDS.t -> ActorInfo.t -> RepoEvent.t -> option error;
  SubscribeToPds : string -> option error;
  db_fault : db_op -> option error
}.

Record State : Type := {
  users : list User.t;
  pdss : list PDS.t;
  actors : list ActorInfo.t;
  calls : list call
}.

Definition with_users (us : list User.t) (s : State) : State :=
  {| users := us; pdss := pdss s; actors := actors s; calls := calls s |}.
Definition with_pdss (ps : list PDS.t) (s : State) : State :=
  {| users := users s; pdss := ps; actors := actors s; calls := calls s |}.
Definition with_actors (acs : list ActorInfo.t) (s : State) : State :=
  {| users := users s; pdss := pdss s; actors := acs; calls := calls s |}.
Definition with_calls (cs : list call) (s : State) : State :=
  {| users := users s; pdss := pdss s; actors := actors s; calls := cs |}.

(** ** A state and error monad for the handlers *)

Definition M (A : Type) : Type := State -> outcome A * State.

Definition ret {A : Type} (a : A) : M A := fun s => (Ret a, s).
Definition fail {A : Type} (e : error) : M A := fun s => (Fail e, s).
Definition panic {A : Type} : M A := fun s => (Panic, s).

Definition bind {A B : Type} (c : M A) (k : A -> M B) : M B :=
  fun s =>
    match c s with
    | (Ret a, s') => k a s'
    | (Fail e, s') => (Fail e, s')
    | (Panic, s') => (Panic, s')
    end.

(** [if err != nil { ... }] around a call: the handler sees the error. *)
Definition on_error {A : Type} (c : M A) (h : error -> M A) : M A :=
  fun s =>
    match c s with
    | (Fail e, s') => h e s'
    | r => r
    end.

Definition lift {A : Type} (r : error + A) : M A :=
  match r with
  | inl e => fail e
  | inr a => ret a
  end.

Definition check (r : option error) : M unit :=
  match r with
  | Some e => fail e
  | None => ret tt
  end.

Definition get : M State := fun s => (Ret s, s).
Definition emit (c : call) : M unit :=
  fun s => (Ret tt, with_calls (calls s ++ [c])%list s).

Declare Scope go_scope.
Delimit Scope go_scope with go.
Notation "x <- c ;; k" := (bind c (fun x => k))
  (at level 61, c at next level, right associativity) : go_scope.
Notation "c ;;; k" := (bind c (fun _ => k))
  (at level 61, right associativity) : go_scope.
Open Scope go_scope.

(** ** The gorm tables *)

Definition max_id {A : Type} (id : A -> Z) (rows : list A) : Z :=
  fold_right (fun r m => Z.max (id r) m) 0 rows.

(** The primary key a fresh row receives. *)
Definition next_id {A : Type} (id : A -> Z) (rows : list A) : Z :=
  1 + max_id id rows.

Definition find_user (did : string) (rows : list User.t) : User.t :=
  match find (fun u => User.Did u =? did)%string rows with
  | Some u => u
  | None => User.zero
  end.

Definition find_pds (host : string) (rows : list PDS.t) : PDS.t :=
  match find (fun p => PDS.Host p =? host)%string rows with
  | Some p => p
  | None => PDS.zero
  end.

(** [db.Find(&u, "did = ?", did)]: the zero value when no row matches. *)
Definition db_Find_user (env : Env) (did : string) : M User.t :=
  fun s =>
    match db_fault env (FindUser did) with
    | Some e => (Fail e, s)
    | None => (Ret (find_user did (users s)), s)
    end.

(** [db.Find(&peering, "host = ?", host)]. *)
Definition db_Find_pds (env : Env) (host : string) : M PDS.t :=
  fun s =>
    match db_fault env (FindPDS host) with
    | Some e => (Fail e, s)
    | None => (Ret (find_pds host (pdss s)), s)
    end.

(** [db.Create(&u)] on the users table, whose columns [handle] and [did]
    both carry a unique index (the struct tags of [User]). *)
Definition db_Create_user (env : Env) (u : User.t) : M User.t :=
  fun s =>
    match db_fault env (CreateUser u) with
    | Some e => (Fail e, s)
    | None =>
      if existsb (fun r => User.Did r =? User.Did u)%string (users s)
      then (Fail (New "UNIQUE constraint failed: users.did"), s)
      else if existsb (fun r => User.Handle r =? User.Handle u)%string (users s)
      then (Fail (New "UNIQUE constraint failed: users.handle"), s)
      else
        let u' := User.mk (next_id User.ID (users s)) (User.Handle u)
                    (User.Did u) (User.PDS u) in
        (Ret u', with_users (users s ++ [u'])%list s)
    end.

(** Modelled from the spec: the declaration of [models.PDS] and its table are
    missing; the spec gives the peering-hosts table a unique constraint on
    host.  [db.Create(&peering)] inserts the row and fills in its key. *)
Definition db_Create_pds (env : Env) (p : PDS.t) : M PDS.t :=
  fun s =>
    match db_fault env (CreatePDS p) with
    | Some e => (Fail e, s)
    | None =>
      if existsb (fun r => PDS.Host r =? PDS.Host p)%string (pdss s)
      then (Fail (New "UNIQUE constraint failed: pds.host"), s)
      else
        let p' := PDS.mk (next_id PDS.ID (pdss s)) (PDS.Host p) (PDS.Did p) in
        (Ret p', with_pdss (pdss s ++ [p'])%list s)
    end.

(** [db.Create(subj)] on the table of [models.ActorInfo]. *)
Definition db_Create_actor (env : Env) (a : ActorInfo.t) : M unit :=
  fun s =>
    match db_fault env (CreateActorInfo a) with
    | Some e => (Fail e, s)
    | None => (Ret tt, with_actors (actors s ++ [a])%list s)
    end.

(** ** createExternalUser *)

(** Lines 213-220: the first service's endpoint as a URL; a host that starts
    with [localhost:] is reached over plain http. *)
Definition service_url (env : Env) (svc : Service.t) : error + URL.t :=
  match url_Parse env (Service.ServiceEndpoint svc) with
  | inl err => inl err
  | inr durl =>
    inr (if String.prefix "localhost:" (URL.Host durl)
         then URL.set_Scheme "http" durl else durl)
  end.

(** Lines 223-245: the peering record of the host, looked up by [durl.Host];
    an unknown host is probed through the client [c] and then recorded. *)
Definition peering_for (env : Env) (svc : Service.t) (durl : URL.t)
    (c : Client.t) : M PDS.t :=
  peering <- db_Find_pds env (URL.Host durl) ;;
  if PDS.ID peering =? 0 then
    emit (CallHandleResolve c "") ;;;
    pdsdid <- on_error (lift (HandleResolve env c ""))
      (fun err => fail (Errorf_w
         "failed to get accounts config for unrecognized pds: " err)) ;;
    db_Create_pds env
      (PDS.mk (PDS.ID peering) (Service.ServiceEndpoint svc) pdsdid)
  else ret peering.

(** Lines 247-255: the handle the directory document declares. *)
Definition candidate_handle (env : Env) (doc : Doc.t) : error + string :=
  match Doc.AlsoKnownAs doc with
  | [] => inr ""
  | aka :: _ =>
    match url_Parse env aka with
    | inl err => inl err
    | inr hurl => inr (URL.Host hurl)
    end
  end.

Definition no_services (did : string) : error :=
  New ("external followed user " ++ did ++ " had no services in did document").

Definition handle_mismatch (handle profileHandle : string) : error :=
  New ("mismatch in handle between did document and pds profile ("
       ++ handle ++ " != " ++ profileHandle ++ ")").

Definition createExternalUser (env : Env) (did : string) : M ActorInfo.t :=
  doc <- on_error (lift (GetDocument env did))
           (fun err => fail (Errorf_s
              "could not locate DID document for followed user: " err)) ;;
  match Doc.Service doc with
  | [] => fail (no_services did)
  | svc :: _ =>
    durl <- lift (service_url env svc) ;;
    let c := Client.mk (url_String env durl) in
    peering <- peering_for env svc durl c ;;
    handle <- lift (candidate_handle env doc) ;;
    profile <- lift (ActorGetProfile env c did) ;;
    if negb (handle =? Profile.Handle profile)%string then
      fail (handle_mismatch handle (Profile.Handle profile))
    else
      u <- on_error
             (db_Create_user env (User.mk 0 handle did (PDS.ID peering)))
             (fun err => fail (Errorf_w
                "failed to create other pds user: " err)) ;;
      match Profile.DisplayName profile with
      | None => panic
      | Some displayName =>
        let subj := ActorInfo.mk (User.ID u) handle displayName did
                      (DeclRef.Cid (Profile.Declaration profile)) ""
                      (PDS.ID peering) in
        db_Create_actor env subj ;;;
        ret subj
      end
  end.

(** ** lookupUserByDid and handleFedEvent *)

Definition lookupUserByDid (env : Env) (did : string) : M User.t :=
  u <- db_Find_user env did ;;
  if User.ID u =? 0 then fail (Sentinel ErrRecordNotFound) else ret u.

(** Lines 165-178: the user an event is merged for, created on first
    sight. *)
Definition event_user (env : Env) (did : string) : M User.t :=
  on_error (lookupUserByDid env did)
    (fun err =>
       if negb (errors_Is err ErrRecordNotFound) then
         fail (Errorf_w "looking up event user: " err)
       else
         subj <- on_error (createExternalUser env did)
                   (fun err => fail (Errorf_w
                      "fed event create external user: " err)) ;;
         ret (User.mk (ActorInfo.Uid subj) "" "" 0)).

Definition handleFedEvent (env : Env) (host : PDS.t) (evt : RepoEvent.t)
  : M unit :=
  match RepoEvent.RepoAppend evt with
  | Some ra =>
    u <- event_user env (RepoEvent.Repo evt) ;;
    emit (CallHandleExternalUserEvent (PDS.ID host) (User.ID u)
            (RepoAppend.Prev ra) (RepoAppend.Ops ra) (RepoAppend.Car ra)) ;;;
    match HandleExternalUserEvent env (PDS.ID host) (User.ID u)
            (RepoAppend.Prev ra) (RepoAppend.Ops ra) (RepoAppend.Car ra) with
    | Some err =>
      if negb (errors_Is err ErrRepoBaseMismatch) then fail err
      else
        s <- get ;;
        ai <- lift (LookupUser env (actors s) (User.ID u)) ;;
        emit (CallAddToCatchupQueue host ai evt) ;;;
        check (AddToCatchupQueue env host ai evt)
    | None => ret tt
    end
  | None => fail (New "invalid fed event")
  end.

(** The items handed to the catch-up queue so far, oldest first. *)
Definition catchup_queue (s : State) : list (PDS.t * ActorInfo.t * RepoEvent.t) :=
  flat_map (fun c => match c with
                     | CallAddToCatchupQueue h ai e => [(h, ai, e)]
                     | _ => []
                     end) (calls s).

(** The merge attempts made so far: (host id, user id, previous revision). *)
Definition merge_calls (s : State) : list (Z * Z * option string) :=
  flat_map (fun c => match c with
                     | CallHandleExternalUserEvent p u prev _ _ => [(p, u, prev)]
                     | _ => []
                     end) (calls s).

(** The clients probed with [atproto.HandleResolve] so far. *)
Definition probes (s : State) : list Client.t :=
  flat_map (fun c => match c with
                     | CallHandleResolve cl _ => [cl]
                     | _ => []
                     end) (calls s).

(** The hosts the slurper was asked to subscribe to so far. *)
Definition targets (s : State) : list string :=
  flat_map (fun c => match c with
                     | CallSubscribeToPds h => [h]
                     | _ => []
                     end) (calls s).

Definition count_did (did : string) (rows : list User.t) : nat :=
  length (filter (fun u => User.Did u =? did)%string rows).

(** ** The HTTP surface *)

(** The error handler installed by [Start]: log, then [WriteHeader(500)].
    The status reaches the client while the response is still open, as on
    /add-target; once [websocket.Upgrade] has taken the connection over, as
    in [EventsHandler], it reaches nobody. *)
Definition HTTPErrorHandler (err : error) : Z := 500.

(** HTTP's class of client errors, 4xx. *)
Definition is_client_error (status : Z) : bool :=
  (400 <=? status) && (status <? 500).

(** [c.Bind(&body)] is echo's; the handler receives what it returned. *)
Definition handleAddTarget (env : Env) (bound : error + addTargetBody.t)
  : M unit :=
  body <- lift bound ;;
  if (addTargetBody.Host body =? "")%string then
    fail (New "no host specified")
  else
    emit (CallSubscribeToPds (addTargetBody.Host body)) ;;;
    check (SubscribeToPds env (addTargetBody.Host body)).

(** *** strconv.ParseInt(s, 10, 64) *)

Definition is_digit (c : ascii) : bool :=
  let n := nat_of_ascii c in (48 <=? n)%nat && (n <=? 57)%nat.

Definition digit_val (c : ascii) : Z := Z.of_nat (nat_of_ascii c) - 48.

Definition ErrSyntax : error := New "invalid syntax".
Definition ErrRange : error := New "value out of range".

(** The loop of [strconv.ParseUint(s, 10, 64)]: a byte that is no digit is a
    syntax error, a value beyond 64 bits a range error, whichever comes
    first. *)
Fixpoint ParseUint_from (s : string) (n : Z) : error + Z :=
  match s with
  | EmptyString => inr n
  | String c rest =>
    if is_digit c then
      if 2 ^ 64 <=? 10 * n + digit_val c then inl ErrRange
      else ParseUint_from rest (10 * n + digit_val c)
    else inl ErrSyntax
  end.

Definition ParseUint (s : string) : error + Z :=
  match s with
  | EmptyString => inl ErrSyntax
  | _ => ParseUint_from s 0
  end.

Definition ParseInt (s : string) : error + Z :=
  match s with
  | EmptyString => inl (Errorf_w "strconv.ParseInt: " ErrSyntax)
  | String c rest =>
    let neg := Ascii.eqb c "-" in
    let digits := if Ascii.eqb c "+" || Ascii.eqb c "-" then rest else s in
    match ParseUint digits with
    | inl err => inl (Errorf_w "strconv.ParseInt: " err)
    | inr un =>
      if negb neg && (2 ^ 63 <=? un) then
        inl (Errorf_w "strconv.ParseInt: " ErrRange)
      else if neg && (2 ^ 63 <? un) then
        inl (Errorf_w "strconv.ParseInt: " ErrRange)
      else inr (if neg then - un else un)
    end
  end.

(** *** EventsHandler *)

(** The four writes that make one frame. *)
Inductive step : Type := SNextWriter | SHeader | SEvent | SClose.

Module EventHeader.
Record t : Type := mk { Type_ : string }.
End EventHeader.

(** What the handler does to the connection and the event manager. *)
Inductive io : Type :=
| IoSubscribe (filter : RepoEvent.t -> bool) (since : option Z)
| IoNextWriter (messageType : Z)
| IoHeader (h : EventHeader.t)
| IoEvent (evt : RepoEvent.t)
| IoClose
| IoCancel.

Definition BinaryMessage : Z := 2.

(** The websocket and the event manager as the handler meets them:
    [write_fault i st] is the error, if any, of step [st] of the frame of
    the [i]-th delivered event; [Subscribe] answers with the events its
    channel delivers until it is closed. *)
Record Wire : Type := {
  Upgrade : option error;
  Subscribe : (RepoEvent.t -> bool) -> option Z -> error + list RepoEvent.t;
  write_fault : nat -> step -> option error
}.

(** [c.Request().Header.Get("since")]: the first value, or the empty string. *)
Definition Header_Get (h : option string) : string :=
  match h with
  | Some v => v
  | None => ""
  end.

(** The body of [for evt := range evts]. *)
Fixpoint stream (w : Wire) (header : EventHeader.t) (i : nat)
    (evts : list RepoEvent.t) : outcome unit * list io :=
  match evts with
  | [] => (Ret tt, [])
  | evt :: rest =>
    match write_fault w i SNextWriter with
    | Some err => (Fail err, [])
    | None =>
      match write_fault w i SHeader with
      | Some err =>
        (Fail (Errorf_w "failed to write header: " err),
         [IoNextWriter BinaryMessage])
      | None =>
        match write_fault w i SEvent with
        | Some err =>
          (Fail (Errorf_w "failed to write event: " err),
           [IoNextWriter BinaryMessage; IoHeader header])
        | None =>
          match write_fault w i SClose with
          | Some err =>
            (Fail (Errorf_w "failed to flush-close our event write: " err),
             [IoNextWriter BinaryMessage; IoHeader header; IoEvent evt])
          | None =>
            let (r, t) := stream w header (S i) rest in
            (r, ([IoNextWriter BinaryMessage; IoHeader header; IoEvent evt;
                  IoClose] ++ t)%list)
          end
        end
      end
    end
  end.

(** Lines 110-117: the cursor the [since] header asks for, if any. *)
Definition since_cursor (sinceHeader : string) : error + option Z :=
  if (sinceHeader =? "")%string then inr None
  else match ParseInt sinceHeader with
       | inl err => inl err
       | inr sval => inr (Some sval)
       end.

(** Line 119: the function literal handed to [Subscribe]. *)
Definition events_filter (evt : RepoEvent.t) : bool := true.

Definition EventsHandler (w : Wire) (sinceHeader : option string)
  : outcome unit * list io :=
  match Upgrade w with
  | Some err => (Fail err, [])
  | None =>
    match since_cursor (Header_Get sinceHeader) with
    | inl err => (Fail err, [])
    | inr since =>
      match Subscribe w events_filter since with
      | inl err => (Fail err, [IoSubscribe events_filter since])
      | inr evts =>
        let (r, t) := stream w (EventHeader.mk "data") 0 evts in
        (r, ([IoSubscribe events_filter since] ++ t ++ [IoCancel])%list)
      end
    end
  end.

(** One complete frame: writer, header, body, close. *)
Definition frame (evt : RepoEvent.t) : list io :=
  [IoNextWriter BinaryMessage; IoHeader (EventHeader.mk "data"); IoEvent evt;
   IoClose].

(** The subscriptions a run of the handler asked for. *)
Definition subscriptions (t : list io) : list (option Z) :=
  flat_map (fun o => match o with
                     | IoSubscribe _ since => [since]
                     | _ => []
                     end) t.

(** The filters a run of the handler subscribed with. *)
Definition filters (t : list io) : list (RepoEvent.t -> bool) :=
  flat_map (fun o => match o with
                     | IoSubscribe f _ => [f]
                     | _ => []
                     end) t.

(** The position of a step within its frame, and the error the handler
    returns when that step fails with [e]. *)
Definition step_index (st : step) : nat :=
  match st with
  | SNextWriter => 0
  | SHeader => 1
  | SEvent => 2
  | SClose => 3
  end.

Definition step_error (st : step) (e : error) : error :=
  match st with
  | SNextWriter => e
  | SHeader => Errorf_w "failed to write header: " e
  | SEvent => Errorf_w "failed to write event: " e
  | SClose => Errorf_w "failed to flush-close our event write: " e
  end.

(** ** Vocabulary of the statements *)

(** Two states agree on every call that is not a host probe. *)
Definition same_effects (s s' : State) : Prop :=
  catchup_queue s' = catchup_queue s
  /\ merge_calls s' = merge_calls s
  /\ targets s' = targets s.

(** What [db.Create(&u)] does to the users table. *)
Definition users_step (did : string) (s s' : State) : Prop :=
  users s' = users s
  \/ exists u, users s' = (users s ++ [u])%list /\ User.Did u = did
               /\ 0 < User.ID u /\ count_did did (users s) = 0%nat.

(** Every run of [c] relates the state before to the state after by [P]. *)
Definition preserves {A : Type} (P : State -> State -> Prop) (c : M A) : Prop :=
  forall s r s', c s = (r, s') -> P s s'.

(** The users and actors tables, the catch-up queue, the merge attempts and
    the subscription targets are all as before. *)
Definition quiet (s s' : State) : Prop :=
  users s' = users s /\ actors s' = actors s /\ same_effects s s'.

(** The facts about a successful resolution that the callers rely on. *)
Definition resolved (env : Env) (did : string) (s s' : State)
    (subj : ActorInfo.t) : Prop :=
  exists u c profile,
    users s' = (users s ++ [u])%list
    /\ User.Did u = did
    /\ User.ID u = ActorInfo.Uid subj
    /\ 0 < User.ID u
    /\ count_did did (users s) = 0%nat
    /\ actors s' = (actors s ++ [subj])%list
    /\ ActorGetProfile env c did = inr profile
    /\ Profile.DisplayName profile = Some (ActorInfo.DisplayName subj).

(** The state once the merge of [ra] for user [uid] has been attempted. *)
Definition merged (host : PDS.t) (uid : Z) (ra : RepoAppend.t) (s : State)
  : State :=
  with_calls (calls s ++ [CallHandleExternalUserEvent (PDS.ID host) uid
                            (RepoAppend.Prev ra) (RepoAppend.Ops ra)
                            (RepoAppend.Car ra)])%list s.

(** How a run of the loop looks: [n] complete frames, then either the end
    of the stream or the part of the next frame written before its first
    failing step. *)
Definition stream_shape (w : Wire) (i : nat) (evts : list RepoEvent.t)
    (r : outcome unit) (t : list io) : Prop :=
  exists n partial,
    t = (flat_map frame (firstn n evts) ++ partial)%list
    /\ ((r = Ret tt /\ n = length evts /\ partial = []
         /\ forall j st, (j < length evts)%nat ->
                         write_fault w (i + j) st = None)
        \/ (exists evt st e,
               nth_error evts n = Some evt
               /\ partial = firstn (step_index st) (frame evt)
               /\ write_fault w (i + n) st = Some e
               /\ r = Fail (step_error st e)
               /\ (forall j st', (j < n)%nat ->
                                 write_fault w (i + j) st' = None))).

(** ** A sample federation

    One peer, [https://pds.example.com], hosts alice and bob.  The directory
    gives eve the alias of alice while her peer reports the handle of bob;
    dave's profile carries no display name; nobody's document has no
    service at all. *)

Definition pds_endpoint : string := "https://pds.example.com".
Definition pds_client : Client.t := Client.mk "https://pds.example.com".

Definition sample_GetDocument (did : string) : error + Doc.t :=
  if (did =? "did:plc:alice")%string then
    inr (Doc.mk [Service.mk pds_endpoint] ["at://alice.example"])
  else if (did =? "did:plc:bob")%string then
    inr (Doc.mk [Service.mk pds_endpoint] ["at://bob.example"])
  else if (did =? "did:plc:eve")%string then
    inr (Doc.mk [Service.mk pds_endpoint] ["at://alice.example"])
  else if (did =? "did:plc:dave")%string then
    inr (Doc.mk [Service.mk pds_endpoint] ["at://dave.example"])
  else if (did =? "did:plc:nobody")%string then
    inr (Doc.mk [] ["at://nobody.example"])
  else inl (New "did not found").

(** [net/url] on the four strings the sample uses. *)
Definition sample_url_Parse (raw : string) : error + URL.t :=
  if (raw =? "https://pds.example.com")%string then
    inr (URL.mk "https" "pds.example.com" "")
  else if (raw =? "at://alice.example")%string then
    inr (URL.mk "at" "alice.example" "")
  else if (raw =? "at://bob.example")%string then
    inr (URL.mk "at" "bob.example" "")
  else if (raw =? "at://dave.example")%string then
    inr (URL.mk "at" "dave.example" "")
  else inl (New "parse: invalid URL").

Definition sample_url_String (u : URL.t) : string :=
  URL.Scheme u ++ "://" ++ URL.Host u ++ URL.Path u.

Definition sample_HandleResolve (c : Client.t) (handle : string)
  : error + string :=
  if (Client.Host c =? "https://pds.example.com")%string
  then inr "did:web:pds.example.com"
  else inl (New "dial: no such host").

Definition sample_ActorGetProfile (c : Client.t) (did : string)
  : error + Profile.t :=
  if (did =? "did:plc:alice")%string then
    inr (Profile.mk "alice.example" (Some "Alice") (DeclRef.mk "bafyalice"))
  else if (did =? "did:plc:bob")%string then
    inr (Profile.mk "bob.example" (Some "Bob") (DeclRef.mk "bafybob"))
  else if (did =? "did:plc:eve")%string then
    inr (Profile.mk "bob.example" (Some "Eve") (DeclRef.mk "bafyeve"))
  else if (did =? "did:plc:dave")%string then
    inr (Profile.mk "dave.example" None (DeclRef.mk "bafydave"))
  else inl (New "profile not found").

(** A merge engine that knows the revision [head]: it rejects the previous
    revision [stale] as a base mismatch and a missing one as malformed. *)
Definition sample_HandleExternalUserEvent (pds uid : Z) (prev : option string)
    (ops : list RepoOp.t) (car : list Byte.byte) : option error :=
  match prev with
  | None => Some (New "malformed commit")
  | Some p =>
    if (p =? "stale")%string then
      Some (Errorf_w "opening delta session: " (Sentinel ErrRepoBaseMismatch))
    else None
  end.

Definition sample_LookupUser (rows : list ActorInfo.t) (uid : Z)
  : error + ActorInfo.t :=
  match find (fun a => ActorInfo.Uid a =? uid) rows with
  | Some a => inr a
  | None => inl (Sentinel ErrRecordNotFound)
  end.

Definition sample_SubscribeToPds (host : string) : option error :=
  if (host =? "down.example")%string then Some (New "dial: connection refused")
  else None.

Definition world : Env := {|
  GetDocument := sample_GetDocument;
  url_Parse := sample_url_Parse;
  url_String := sample_url_String;
  HandleResolve := sample_HandleResolve;
  ActorGetProfile := sample_ActorGetProfile;
  HandleExternalUserEvent := sample_HandleExternalUserEvent;
  LookupUser := sample_LookupUser;
  AddToCatchupQueue := fun _ _ _ => None;
  SubscribeToPds := sample_SubscribeToPds;
  db_fault := fun _ => None
|}.

Definition empty_state : State :=
  {| users := []; pdss := []; actors := []; calls := [] |}.

Definition source_host : PDS.t := PDS.mk 1 "https://pds.example.com" "did:web:pds.example.com".

Definition append_event (seq : Z) (did : string) (prev : string) : RepoEvent.t :=
  RepoEvent.mk seq did (Some (RepoAppend.mk (Some prev) [] [])).

Definition alice_info : ActorInfo.t :=
  ActorInfo.mk 1 "alice.example" "Alice" "did:plc:alice" "bafyalice" "" 1.

(** The relay after it has seen alice once. *)
Definition alice_known : State :=
  snd (createExternalUser world "did:plc:alice" empty_state).

(** A relay that holds dave's user row and no directory record for him:
    what the panic on his missing display name leaves behind. *)
Definition dave_half_known : State :=
  snd (createExternalUser world "did:plc:dave" empty_state).

(** A connection that works, over an event manager that delivers two events. *)
Definition sample_events : list RepoEvent.t :=
  [append_event 3 "did:plc:alice" "head"; append_event 4 "did:plc:bob" "head"].

Definition good_wire : Wire := {|
  Upgrade := None;
  Subscribe := fun _ _ => inr sample_events;
  write_fault := fun _ _ => None
|}.

(** The same, but the body of the second event fails to encode. *)
Definition flaky_wire : Wire := {|
  Upgrade := None;
  Subscribe := fun _ _ => inr sample_events;
  write_fault := fun i st =>
    match i, st with
    | 1%nat, SEvent => Some (New "write: broken pipe")
    | _, _ => None
    end
|}.

(** *** Further vocabulary: tables, traces and cursors *)

(** Every user row points to a row of the peering table. *)
Definition users_reference_pdss (s : State) : Prop :=
  forall u, In u (users s) ->
            exists p, In p (pdss s) /\ PDS.ID p = User.PDS u.

(** How often a run cancelled its subscription, and what it wrote. *)
Definition cancels (t : list io) : nat :=
  length (filter (fun o => match o with IoCancel => true | _ => false end) t).

Definition events_written (t : list io) : list RepoEvent.t :=
  flat_map (fun o => match o with IoEvent e => [e] | _ => [] end) t.

Definition writes (t : list io) : list io :=
  filter (fun o => match o with
                   | IoSubscribe _ _ => false
                   | IoCancel => false
                   | _ => true
                   end) t.

(** Decimal digits only, and the number they spell after [n]. *)
Fixpoint all_digits (s : string) : bool :=
  match s with
  | EmptyString => true
  | String c rest => is_digit c && all_digits rest
  end.

Fixpoint digits_value (s : string) (n : Z) : Z :=
  match s with
  | EmptyString => n
  | String c rest => digits_value rest (10 * n + digit_val c)
  end.

(** What one resolution may do to the peering table: nothing, or one probe
    of a host, and only if that probe answered, one new row that carries the
    identifier the host reported. *)
Definition pds_step (env : Env) (s s' : State) : Prop :=
  (pdss s' = pdss s /\ probes s' = probes s)
  \/ (exists c,
         probes s' = (probes s ++ [c])%list
         /\ (pdss s' = pdss s
             \/ (exists pdsdid p,
                    HandleResolve env c "" = inr pdsdid
                    /\ pdss s' = (pdss s ++ [p])%list
                    /\ PDS.ID p = next_id PDS.ID (pdss s)
                    /\ PDS.Did p = pdsdid
                    /\ existsb (fun x => PDS.Host x =? PDS.Host p)%string
                         (pdss s) = false))).

(** The users table gained the row [u] for [did], with a fresh key, a
    handle and an identifier nobody had, and a reference to a row of the
    peering table. *)
Definition user_added (did : string) (s s' : State) (u : User.t) : Prop :=
  users s' = (users s ++ [u])%list
  /\ User.ID u = next_id User.ID (users s)
  /\ User.Did u = did
  /\ (exists peering, In peering (pdss s') /\ PDS.ID peering = User.PDS u
                      /\ PDS.ID peering <> 0)
  /\ existsb (fun x => User.Did x =? did)%string (users s) = false
  /\ existsb (fun x => User.Handle x =? User.Handle u)%string (users s) = false.

(** A directory that cannot be reached, and a peer that does not answer. *)
Definition dark_world : Env := {|
  GetDocument := fun _ => inl (Sentinel ErrRecordNotFound);
  url_Parse := sample_url_Parse;
  url_String := sample_url_String;
  HandleResolve := fun _ _ => inl (New "dial: no such host");
  ActorGetProfile := sample_ActorGetProfile;
  HandleExternalUserEvent := sample_HandleExternalUserEvent;
  LookupUser := sample_LookupUser;
  AddToCatchupQueue := fun _ _ _ => None;
  SubscribeToPds := sample_SubscribeToPds;
  db_fault := fun _ => None
|}.

(** The sample directory with a peer that does not answer the probe. *)
Definition silent_peer_world : Env := {|
  GetDocument := sample_GetDocument;
  url_Parse := sample_url_Parse;
  url_String := sample_url_String;
  HandleResolve := fun _ _ => inl (New "dial: no such host");
  ActorGetProfile := sample_ActorGetProfile;
  HandleExternalUserEvent := sample_HandleExternalUserEvent;
  LookupUser := sample_LookupUser;
  AddToCatchupQueue := fun _ _ _ => None;
  SubscribeToPds := sample_SubscribeToPds;
  db_fault := fun _ => None
|}.

(** The sample world over a database whose users table cannot be read. *)
Definition broken_db_world : Env := {|
  GetDocument := sample_GetDocument;
  url_Parse := sample_url_Parse;
  url_String := sample_url_String;
  HandleResolve := sample_HandleResolve;
  ActorGetProfile := sample_ActorGetProfile;
  HandleExternalUserEvent := sample_HandleExternalUserEvent;
  LookupUser := sample_LookupUser;
  AddToCatchupQueue := fun _ _ _ => None;
  SubscribeToPds := sample_SubscribeToPds;
  db_fault := fun op => match op with
                        | FindUser _ => Some (New "database is locked")
                        | CreateActorInfo _ => Some (New "disk full")
                        | _ => None
                        end
|}.

(** A relay that already peers with the host under the key the lookup
    uses. *)
Definition peered_state : State :=
  {| users := []; pdss := [PDS.mk 4 "pds.example.com" "did:web:pds.example.com"];
     actors := []; calls := [] |}.

(** *** The event manager, as the spec describes it *)

(** The retained events a cursor asks to replay: those after it. *)
Definition after_cursor (since : option Z) (retained : list RepoEvent.t)
  : list RepoEvent.t :=
  match since with
  | Some cursor => filter (fun evt => cursor <? RepoEvent.Seq evt) retained
  | None => []
  end.

(** Modelled from the spec: [events.EventManager.Subscribe] is not under
    src/.  A subscription with a cursor is delivered the retained events
    with a sequence number greater than the cursor, then the events
    published after it registered; without a cursor only the latter; and of
    those it receives the events its filter accepts, in order. *)
Definition subscription_feed (filter_ : RepoEvent.t -> bool)
    (since : option Z) (retained live : list RepoEvent.t)
  : list RepoEvent.t :=
  filter filter_ (after_cursor since retained ++ live)%list.

(** A connection that works, over such an event manager. *)
Definition manager_wire (retained live : list RepoEvent.t) : Wire := {|
  Upgrade := None;
  Subscribe := fun f since => inr (subscription_feed f since retained live);
  write_fault := fun _ _ => None
|}.

(** * Proofs *)

(** ** The monad *)

Lemma bind_inv {A B : Type} (c : M A) (k : A -> M B) s r s' :
  bind c k s = (r, s') ->
  (exists a s1, c s = (Ret a, s1) /\ k a s1 = (r, s'))
  \/ (exists e, c s = (Fail e, s') /\ r = Fail e)
  \/ (c s = (Panic, s') /\ r = Panic).
Proof.
  unfold bind. destruct (c s) as [[a | e | ] s1]; intros H.
  - left. eauto.
  - right. left. inversion H; subst. eauto.
  - right. right. inversion H; subst. eauto.
Qed.

Lemma bind_ret {A B : Type} (c : M A) (k : A -> M B) s a s1 :
  c s = (Ret a, s1) -> bind c k s = k a s1.
Proof. unfold bind. intros ->. reflexivity. Qed.

Lemma bind_fail {A B : Type} (c : M A) (k : A -> M B) s e s1 :
  c s = (Fail e, s1) -> bind c k s = (Fail e, s1).
Proof. unfold bind. intros ->. reflexivity. Qed.

Lemma bind_panic {A B : Type} (c : M A) (k : A -> M B) s s1 :
  c s = (Panic, s1) -> bind c k s = (Panic, s1).
Proof. unfold bind. intros ->. reflexivity. Qed.

Lemma lift_inv {A : Type} (x : error + A) s r s' :
  lift x s = (r, s') ->
  s' = s /\ ((exists a, x = inr a /\ r = Ret a) \/ (exists e, x = inl e /\ r = Fail e)).
Proof.
  destruct x as [e | a]; cbn; intros H; inversion H; subst; split; eauto.
Qed.

(** ** What a state remembers besides the tables *)

Lemma same_effects_refl s : same_effects s s.
Proof. repeat split. Qed.

Lemma same_effects_trans s1 s2 s3 :
  same_effects s1 s2 -> same_effects s2 s3 -> same_effects s1 s3.
Proof.
  unfold same_effects. intros (A1 & A2 & A3) (B1 & B2 & B3).
  repeat split; congruence.
Qed.

Lemma catchup_queue_emit s c :
  catchup_queue (with_calls (calls s ++ [c]) s)
  = (catchup_queue s ++
     match c with
     | CallAddToCatchupQueue h ai e => [(h, ai, e)]
     | _ => []
     end)%list.
Proof.
  unfold catchup_queue; cbn. rewrite flat_map_app; cbn.
  rewrite app_nil_r. reflexivity.
Qed.

Lemma merge_calls_emit s c :
  merge_calls (with_calls (calls s ++ [c]) s)
  = (merge_calls s ++
     match c with
     | CallHandleExternalUserEvent p u prev _ _ => [(p, u, prev)]
     | _ => []
     end)%list.
Proof.
  unfold merge_calls; cbn. rewrite flat_map_app; cbn.
  rewrite app_nil_r. reflexivity.
Qed.

Lemma targets_emit s c :
  targets (with_calls (calls s ++ [c]) s)
  = (targets s ++
     match c with
     | CallSubscribeToPds h => [h]
     | _ => []
     end)%list.
Proof.
  unfold targets; cbn. rewrite flat_map_app; cbn.
  rewrite app_nil_r. reflexivity.
Qed.

Lemma same_effects_probe s c h :
  same_effects s (with_calls (calls s ++ [CallHandleResolve c h]) s).
Proof.
  unfold same_effects.
  rewrite catchup_queue_emit, merge_calls_emit, targets_emit.
  rewrite !app_nil_r. repeat split.
Qed.

(** ** The tables *)

Lemma db_Find_pds_inv env host s r s' :
  db_Find_pds env host s = (r, s') ->
  s' = s /\ (r = Ret (find_pds host (pdss s)) \/ exists e, r = Fail e).
Proof.
  unfold db_Find_pds. destruct (db_fault env (FindPDS host));
    intros H; inversion H; subst; split; eauto.
Qed.

Lemma db_Create_pds_inv env p s r s' :
  db_Create_pds env p s = (r, s') ->
  users s' = users s /\ actors s' = actors s /\ calls s' = calls s
  /\ ((exists e, r = Fail e /\ s' = s)
      \/ (exists p', r = Ret p' /\ pdss s' = (pdss s ++ [p'])%list
                     /\ PDS.Host p' = PDS.Host p /\ PDS.Did p' = PDS.Did p)).
Proof.
  unfold db_Create_pds. destruct (db_fault env (CreatePDS p)).
  - intros H; inversion H; subst. repeat split; eauto.
  - destruct (existsb _ _); intros H; inversion H; subst; cbn.
    + repeat split; eauto.
    + repeat split. right. eexists. repeat split.
Qed.

Lemma max_id_nonneg {A : Type} (id : A -> Z) rows : 0 <= max_id id rows.
Proof.
  induction rows as [| a rows IH]; [cbn; lia |].
  change (max_id id (a :: rows)) with (Z.max (id a) (max_id id rows)). lia.
Qed.

Lemma next_id_pos {A : Type} (id : A -> Z) rows : 0 < next_id id rows.
Proof. unfold next_id. pose proof (max_id_nonneg id rows). lia. Qed.

Lemma count_did_zero did rows :
  existsb (fun r => User.Did r =? did)%string rows = false ->
  count_did did rows = 0%nat.
Proof.
  unfold count_did. induction rows as [| u rows IH]; cbn; [reflexivity |].
  destruct (User.Did u =? did)%string; cbn; [discriminate | exact IH].
Qed.

Lemma count_did_app did rows rows' :
  count_did did (rows ++ rows') = (count_did did rows + count_did did rows')%nat.
Proof. unfold count_did. rewrite filter_app, length_app. reflexivity. Qed.

Lemma find_user_none did rows :
  count_did did rows = 0%nat ->
  find (fun u => User.Did u =? did)%string rows = None.
Proof.
  unfold count_did. induction rows as [| u rows IH]; cbn; [reflexivity |].
  destruct (User.Did u =? did)%string; cbn; [discriminate | exact IH].
Qed.

Lemma find_user_fresh did rows u :
  count_did did rows = 0%nat -> User.Did u = did ->
  find_user did (rows ++ [u]) = u.
Proof.
  intros H0 Hu. unfold find_user.
  assert (G : forall l, find (fun u => User.Did u =? did)%string l = None ->
            find (fun u => User.Did u =? did)%string (l ++ [u]) = Some u).
  { induction l as [| x l IH]; cbn.
    - rewrite Hu, String.eqb_refl. reflexivity.
    - destruct (User.Did x =? did)%string; [discriminate | exact IH]. }
  rewrite (G rows (find_user_none _ _ H0)). reflexivity.
Qed.

Lemma db_Create_user_inv env u s r s' :
  db_Create_user env u s = (r, s') ->
  pdss s' = pdss s /\ actors s' = actors s /\ calls s' = calls s
  /\ ((exists e, r = Fail e /\ s' = s)
      \/ (exists u', r = Ret u' /\ users s' = (users s ++ [u'])%list
                     /\ User.Did u' = User.Did u /\ 0 < User.ID u'
                     /\ count_did (User.Did u) (users s) = 0%nat)).
Proof.
  unfold db_Create_user. destruct (db_fault env (CreateUser u)).
  - intros H; inversion H; subst. repeat split; eauto.
  - destruct (existsb (fun r0 => (User.Did r0 =? User.Did u)%string) (users s)) eqn:E.
    + intros H; inversion H; subst. repeat split; eauto.
    + destruct (existsb (fun r0 => (User.Handle r0 =? User.Handle u)%string) _);
        intros H; inversion H; subst; cbn.
      * repeat split; eauto.
      * repeat split. right. eexists. repeat split.
        -- apply next_id_pos.
        -- apply count_did_zero, E.
Qed.

Lemma db_Create_actor_inv env a s r s' :
  db_Create_actor env a s = (r, s') ->
  users s' = users s /\ pdss s' = pdss s /\ calls s' = calls s
  /\ ((exists e, r = Fail e /\ s' = s)
      \/ (r = Ret tt /\ actors s' = (actors s ++ [a])%list)).
Proof.
  unfold db_Create_actor. destruct (db_fault env (CreateActorInfo a));
    intros H; inversion H; subst; cbn; repeat split; eauto.
Qed.

(** ** Relations every step of a computation keeps *)

Section Preservation.
Variable P : State -> State -> Prop.
Hypothesis P_refl : forall s, P s s.
Hypothesis P_trans : forall s1 s2 s3, P s1 s2 -> P s2 s3 -> P s1 s3.

Lemma preserves_ret {A : Type} (a : A) : preserves P (ret a).
Proof. intros s r s' H. inversion H; subst. apply P_refl. Qed.

Lemma preserves_fail {A : Type} (e : error) : preserves P (@fail A e).
Proof. intros s r s' H. inversion H; subst. apply P_refl. Qed.

Lemma preserves_panic {A : Type} : preserves P (@panic A).
Proof. intros s r s' H. inversion H; subst. apply P_refl. Qed.

Lemma preserves_get : preserves P get.
Proof. intros s r s' H. inversion H; subst. apply P_refl. Qed.

Lemma preserves_lift {A : Type} (x : error + A) : preserves P (lift x).
Proof. destruct x; [apply preserves_fail | apply preserves_ret]. Qed.

Lemma preserves_check (x : option error) : preserves P (check x).
Proof. destruct x; [apply preserves_fail | apply preserves_ret]. Qed.

Lemma preserves_bind {A B : Type} (c : M A) (k : A -> M B) :
  preserves P c -> (forall a, preserves P (k a)) -> preserves P (bind c k).
Proof.
  intros Hc Hk s r s' H. apply bind_inv in H.
  destruct H as [(a & s1 & H1 & H2) | [(e & H1 & _) | (H1 & _)]].
  - eapply P_trans; [eapply Hc, H1 | eapply Hk, H2].
  - eapply Hc, H1.
  - eapply Hc, H1.
Qed.

Lemma preserves_on_error {A : Type} (c : M A) (h : error -> M A) :
  preserves P c -> (forall e, preserves P (h e)) -> preserves P (on_error c h).
Proof.
  intros Hc Hh s r s' H. unfold on_error in H.
  destruct (c s) as [[a | e | ] s1] eqn:E.
  - inversion H; subst. eapply Hc, E.
  - eapply P_trans; [eapply Hc, E | eapply Hh, H].
  - inversion H; subst. eapply Hc, E.
Qed.

Lemma preserves_if {A : Type} (b : bool) (c1 c2 : M A) :
  preserves P c1 -> preserves P c2 -> preserves P (if b then c1 else c2).
Proof. destruct b; auto. Qed.

End Preservation.

Lemma quiet_refl s : quiet s s.
Proof. repeat split. Qed.

Lemma quiet_trans s1 s2 s3 : quiet s1 s2 -> quiet s2 s3 -> quiet s1 s3.
Proof.
  intros (U1 & A1 & E1) (U2 & A2 & E2). repeat split; try congruence.
  all: eapply same_effects_trans; eauto.
Qed.

Lemma quiet_same_calls s s' :
  users s' = users s -> actors s' = actors s -> calls s' = calls s ->
  quiet s s'.
Proof.
  intros U A C. repeat split; auto;
    unfold catchup_queue, merge_calls, targets; rewrite C; reflexivity.
Qed.

Lemma quiet_db_Find_pds env host : preserves quiet (db_Find_pds env host).
Proof.
  intros s r s' H. apply db_Find_pds_inv in H as [-> _]. apply quiet_refl.
Qed.

Lemma quiet_db_Create_pds env p : preserves quiet (db_Create_pds env p).
Proof.
  intros s r s' H. apply db_Create_pds_inv in H as (U & A & C & _).
  apply quiet_same_calls; assumption.
Qed.

Lemma quiet_probe c h : preserves quiet (emit (CallHandleResolve c h)).
Proof.
  intros s r s' H. inversion H; subst. repeat split; apply same_effects_probe.
Qed.

Lemma peering_for_quiet env svc durl c :
  preserves quiet (peering_for env svc durl c).
Proof.
  pose proof quiet_refl as R. pose proof quiet_trans as T.
  unfold peering_for.
  apply preserves_bind; auto using quiet_db_Find_pds. intros peering.
  apply preserves_if; [| apply preserves_ret; auto].
  apply preserves_bind; auto using quiet_probe. intros _.
  apply preserves_bind; auto using quiet_db_Create_pds.
  apply preserves_on_error; auto.
  - apply preserves_lift; auto.
  - intros e. apply preserves_fail; auto.
Qed.

(** ** The trust gate of identity resolution *)

Lemma fetch_document env did doc s :
  GetDocument env did = inr doc ->
  on_error (lift (GetDocument env did))
    (fun err => fail (Errorf_s
       "could not locate DID document for followed user: " err)) s
  = (Ret doc, s).
Proof. intros E. unfold on_error. rewrite E. reflexivity. Qed.

(** C2.  Once the directory has answered with a document: if the document
    declares no service, [createExternalUser] fails with the no-service
    error and the state is untouched; and if the resolution gets as far as
    the peer's profile and the handle of the document differs from the handle
    of the profile, it fails with the handle-mismatch error, and neither a
    user row nor an actor record has been created. *)
Theorem createExternalUser_trust_gate :
  forall env did s doc,
    GetDocument env did = inr doc ->
    (Doc.Service doc = [] ->
     createExternalUser env did s = (Fail (no_services did), s))
    /\ (forall svc rest durl peering s1 handle profile,
          Doc.Service doc = svc :: rest ->
          service_url env svc = inr durl ->
          peering_for env svc durl (Client.mk (url_String env durl)) s
            = (Ret peering, s1) ->
          candidate_handle env doc = inr handle ->
          ActorGetProfile env (Client.mk (url_String env durl)) did
            = inr profile ->
          handle <> Profile.Handle profile ->
          createExternalUser env did s
            = (Fail (handle_mismatch handle (Profile.Handle profile)), s1)
          /\ users s1 = users s /\ actors s1 = actors s).
Proof.
  intros env did s doc Hdoc. split.
  - intros Hsvc. unfold createExternalUser.
    rewrite (bind_ret _ _ _ _ _ (fetch_document _ _ _ s Hdoc)).
    rewrite Hsvc. reflexivity.
  - intros svc rest durl peering s1 handle profile Hsvc Hurl Hpeer Hhandle
      Hprofile Hne.
    split.
    + unfold createExternalUser.
      rewrite (bind_ret _ _ _ _ _ (fetch_document _ _ _ s Hdoc)).
      rewrite Hsvc, Hurl. cbn [lift].
      rewrite (bind_ret (ret durl) _ s durl s eq_refl).
      rewrite (bind_ret _ _ _ _ _ Hpeer).
      rewrite Hhandle, Hprofile. cbn [lift].
      rewrite (bind_ret (ret handle) _ s1 handle s1 eq_refl).
      rewrite (bind_ret (ret profile) _ s1 profile s1 eq_refl).
      apply String.eqb_neq in Hne. rewrite Hne. reflexivity.
    + apply peering_for_quiet in Hpeer as (U & A & _). split; assumption.
Qed.

Lemma createExternalUser_trust_gate_witness :
  createExternalUser world "did:plc:nobody" empty_state
    = (Fail (no_services "did:plc:nobody"), empty_state)
  /\ (createExternalUser world "did:plc:eve" empty_state
        = (Fail (handle_mismatch "alice.example" "bob.example"),
           {| users := []; pdss := [PDS.mk 1 pds_endpoint "did:web:pds.example.com"];
              actors := []; calls := [CallHandleResolve pds_client ""] |})
      /\ users {| users := []; pdss := [PDS.mk 1 pds_endpoint "did:web:pds.example.com"];
                  actors := []; calls := [CallHandleResolve pds_client ""] |}
         = users empty_state
      /\ actors {| users := []; pdss := [PDS.mk 1 pds_endpoint "did:web:pds.example.com"];
                   actors := []; calls := [CallHandleResolve pds_client ""] |}
         = actors empty_state).
Proof.
  split.
  - apply (createExternalUser_trust_gate world "did:plc:nobody" empty_state
             (Doc.mk [] ["at://nobody.example"])); reflexivity.
  - apply (proj2 (createExternalUser_trust_gate world "did:plc:eve" empty_state
             (Doc.mk [Service.mk pds_endpoint] ["at://alice.example"]) eq_refl)
             (Service.mk pds_endpoint) [] (URL.mk "https" "pds.example.com" "")
             (PDS.mk 1 pds_endpoint "did:web:pds.example.com")
             _ "alice.example"
             (Profile.mk "bob.example" (Some "Eve") (DeclRef.mk "bafyeve")));
      try reflexivity.
    discriminate.
Defined.

(** ** What a resolution leaves behind *)

Ltac inv H := inversion H; subst; clear H.

(** Split a run of [x <- c ;; k] into the run of [c] and the run of [k]. *)
Ltac unbind H a s1 Hc :=
  let e := fresh "e" in
  apply bind_inv in H;
  destruct H as [(a & s1 & Hc & H) | [(e & Hc & H) | (Hc & H)]].

Lemma on_error_lift_inv {A : Type} (x : error + A) (f : error -> error) s r s' :
  on_error (lift x) (fun e => fail (f e)) s = (r, s') ->
  s' = s /\ ((exists a, x = inr a /\ r = Ret a) \/ (exists e, r = Fail e)).
Proof.
  unfold on_error. destruct x as [e | a]; cbn; intros H; inv H; split; eauto.
Qed.

Lemma users_step_quiet did s s' : quiet s s' -> users_step did s s'.
Proof. intros (U & _). left. exact U. Qed.

Lemma createExternalUser_inv env did s r s' :
  createExternalUser env did s = (r, s') ->
  same_effects s s'
  /\ users_step did s s'
  /\ (forall subj, r = Ret subj -> resolved env did s s' subj).
Proof.
  assert (Q : forall t t' (x : outcome ActorInfo.t), quiet t t' ->
            (forall subj, x = Ret subj -> False) ->
            same_effects t t' /\ users_step did t t'
            /\ (forall subj, x = Ret subj -> resolved env did t t' subj)).
  { intros t t' x Hq Hx. split; [apply Hq |]. split.
    - apply users_step_quiet, Hq.
    - intros subj E. destruct (Hx subj E). }
  unfold createExternalUser. intros H.
  unbind H doc s1 Hdoc;
    try (apply on_error_lift_inv in Hdoc as [-> _]; subst r;
         apply Q; [apply quiet_refl | discriminate]).
  apply on_error_lift_inv in Hdoc as [-> _].
  destruct (Doc.Service doc) as [| svc rest].
  { inv H. apply Q; [apply quiet_refl | discriminate]. }
  unbind H durl s1 Hurl;
    try (apply lift_inv in Hurl as [-> _]; subst r;
         apply Q; [apply quiet_refl | discriminate]).
  apply lift_inv in Hurl as [-> _].
  set (c := Client.mk (url_String env durl)) in *.
  unbind H peering s1 Hpeer;
    try (apply peering_for_quiet in Hpeer; subst r;
         apply Q; [exact Hpeer | discriminate]).
  apply peering_for_quiet in Hpeer.
  unbind H handle s2 Hhandle;
    try (apply lift_inv in Hhandle as [-> _]; subst r;
         apply Q; [exact Hpeer | discriminate]).
  apply lift_inv in Hhandle as [-> _].
  unbind H profile s2 Hprofile;
    try (apply lift_inv in Hprofile as [-> _]; subst r;
         apply Q; [exact Hpeer | discriminate]).
  apply lift_inv in Hprofile as [-> Hprofile].
  destruct Hprofile as [(p & Hprofile & Ep) | (e & _ & Ep)]; [| discriminate].
  inv Ep. rename p into profile.
  destruct (negb (handle =? Profile.Handle profile)%string).
  { inv H. apply Q; [exact Hpeer | discriminate]. }
  destruct Hpeer as (U1 & A1 & E1).
  unbind H u s2 Hu.
  - (* the user row is in *)
    unfold on_error in Hu.
    destruct (db_Create_user env (User.mk 0 handle did (PDS.ID peering)) s1)
      as [[u' | e | ] t] eqn:Hc; inv Hu.
    apply db_Create_user_inv in Hc as (P2 & A2 & C2 & Hc).
    destruct Hc as [(e & Ee & _) | (u' & Eu & U2 & D2 & I2 & N2)];
      [discriminate |].
    inv Eu. cbn in D2, N2. rewrite U1 in U2, N2.
    assert (E2 : same_effects s s2).
    { eapply same_effects_trans; [exact E1 |].
      unfold same_effects, catchup_queue, merge_calls, targets.
      rewrite C2. repeat split. }
    assert (S2 : users_step did s s2).
    { right. exists u'. repeat split; assumption. }
    destruct (Profile.DisplayName profile) as [displayName |] eqn:Hdn.
    + unbind H x s3 Ha.
      * apply db_Create_actor_inv in Ha as (U3 & P3 & C3 & Ha).
        destruct Ha as [(e & Ee & _) | (_ & A3)]; [discriminate |].
        inv H. split; [| split].
        -- eapply same_effects_trans; [exact E2 |].
           unfold same_effects, catchup_queue, merge_calls, targets.
           rewrite C3. repeat split.
        -- right. exists u'. rewrite U3. repeat split; assumption.
        -- intros subj Es. inv Es. exists u', c, profile. cbn.
           rewrite U3, A3, A2, A1. repeat split; assumption.
      * apply db_Create_actor_inv in Ha as (U3 & P3 & C3 & Ha).
        subst r. split; [| split].
        -- eapply same_effects_trans; [exact E2 |].
           unfold same_effects, catchup_queue, merge_calls, targets.
           rewrite C3. repeat split.
        -- right. exists u'. rewrite U3. repeat split; assumption.
        -- discriminate.
      * apply db_Create_actor_inv in Ha as (U3 & P3 & C3 & Ha).
        destruct Ha as [(e & Ee & _) | (Ee & _)]; discriminate.
    + inv H. split; [exact E2 | split; [exact S2 | discriminate]].
  - (* creating the user row failed *)
    unfold on_error in Hu.
    destruct (db_Create_user env (User.mk 0 handle did (PDS.ID peering)) s1)
      as [[u' | e' | ] t] eqn:Hc; inv Hu.
    apply db_Create_user_inv in Hc as (P2 & A2 & C2 & Hc).
    destruct Hc as [(e1 & _ & ->) | (u' & Eu & _)]; [| discriminate].
    apply Q; [split; [exact U1 | split; [exact A1 | exact E1]] | discriminate].
  - unfold on_error in Hu.
    destruct (db_Create_user env (User.mk 0 handle did (PDS.ID peering)) s1)
      as [[u' | e' | ] t] eqn:Hc; inv Hu.
    apply db_Create_user_inv in Hc as (_ & _ & _ & Hc).
    destruct Hc as [(e1 & E1' & _) | (u' & Eu & _)]; discriminate.
Qed.

(** Dave's resolution panics after his user row went in. *)
Example dave_resolution_panics :
  createExternalUser world "did:plc:dave" empty_state
  = (Panic,
     {| users := [User.mk 1 "dave.example" "did:plc:dave" 1];
        pdss := [PDS.mk 1 pds_endpoint "did:web:pds.example.com"];
        actors := [];
        calls := [CallHandleResolve pds_client ""] |}).
Proof. reflexivity. Qed.

(** ** The ingestion router *)

Lemma lookupUserByDid_inv env did s r s' :
  lookupUserByDid env did s = (r, s') ->
  s' = s
  /\ (r = Panic -> False)
  /\ (forall u, r = Ret u -> db_fault env (FindUser did) = None
                             /\ u = find_user did (users s) /\ User.ID u <> 0).
Proof.
  unfold lookupUserByDid, bind, db_Find_user.
  destruct (db_fault env (FindUser did)).
  - intros H; inv H. repeat split; discriminate.
  - destruct (User.ID (find_user did (users s)) =? 0) eqn:E; intros H; inv H.
    + repeat split; discriminate.
    + split; [reflexivity |]. split; [discriminate |].
      intros u Hu. inv Hu. repeat split. apply Z.eqb_neq, E.
Qed.

Lemma lookupUserByDid_unknown env did s :
  db_fault env (FindUser did) = None ->
  (forall u, In u (users s) -> User.Did u <> did) ->
  lookupUserByDid env did s = (Fail (Sentinel ErrRecordNotFound), s).
Proof.
  intros Hf Hno. unfold lookupUserByDid, bind, db_Find_user. rewrite Hf.
  assert (E : find_user did (users s) = User.zero).
  { unfold find_user.
    destruct (find (fun u => (User.Did u =? did)%string) (users s)) eqn:F;
      [| reflexivity].
    apply find_some in F as [Hin Heq]. apply String.eqb_eq in Heq.
    destruct (Hno _ Hin Heq). }
  rewrite E. reflexivity.
Qed.

Lemma event_user_inv env did s r s' :
  event_user env did s = (r, s') ->
  same_effects s s' /\ users_step did s s'.
Proof.
  unfold event_user, on_error. intros H.
  destruct (lookupUserByDid env did s) as [[u | e | ] t] eqn:L;
    apply lookupUserByDid_inv in L as (-> & L).
  - inv H. split; [apply same_effects_refl | left; reflexivity].
  - destruct (negb (errors_Is e ErrRecordNotFound)).
    + inv H. split; [apply same_effects_refl | left; reflexivity].
    + unfold bind in H.
      destruct (createExternalUser env did s) as [[subj | e' | ] t] eqn:C;
        apply createExternalUser_inv in C as (SE & US & _); inv H;
        split; assumption.
  - inv H. split; [apply same_effects_refl | left; reflexivity].
Qed.

Lemma event_user_unknown env did s :
  db_fault env (FindUser did) = None ->
  (forall u, In u (users s) -> User.Did u <> did) ->
  event_user env did s
  = match createExternalUser env did s with
    | (Ret subj, s1) => (Ret (User.mk (ActorInfo.Uid subj) "" "" 0), s1)
    | (Fail e, s1) =>
      (Fail (Errorf_w "fed event create external user: " e), s1)
    | (Panic, s1) => (Panic, s1)
    end.
Proof.
  intros Hf Hno. unfold event_user, on_error at 1.
  rewrite (lookupUserByDid_unknown _ _ _ Hf Hno). cbn.
  unfold bind, on_error.
  destruct (createExternalUser env did s) as [[subj | e | ] s1]; reflexivity.
Qed.

(** What [handleFedEvent] does once the user is known. *)
Lemma handleFedEvent_known_user env host evt ra s u s1 :
  RepoEvent.RepoAppend evt = Some ra ->
  event_user env (RepoEvent.Repo evt) s = (Ret u, s1) ->
  handleFedEvent env host evt s
  = let s2 := merged host (User.ID u) ra s1 in
    match HandleExternalUserEvent env (PDS.ID host) (User.ID u)
            (RepoAppend.Prev ra) (RepoAppend.Ops ra) (RepoAppend.Car ra) with
    | None => (Ret tt, s2)
    | Some err =>
      if errors_Is err ErrRepoBaseMismatch then
        match LookupUser env (actors s1) (User.ID u) with
        | inl e => (Fail e, s2)
        | inr ai =>
          (match AddToCatchupQueue env host ai evt with
           | None => Ret tt
           | Some e => Fail e
           end,
           with_calls (calls s2 ++ [CallAddToCatchupQueue host ai evt])%list s2)
        end
      else (Fail err, s2)
    end.
Proof.
  intros Hra Hu. unfold handleFedEvent. rewrite Hra.
  rewrite (bind_ret _ _ _ _ _ Hu).
  unfold bind at 1. unfold emit at 1. fold (merged host (User.ID u) ra s1).
  cbv zeta.
  destruct (HandleExternalUserEvent env (PDS.ID host) (User.ID u)
              (RepoAppend.Prev ra) (RepoAppend.Ops ra) (RepoAppend.Car ra))
    as [err |]; [| reflexivity].
  destruct (errors_Is err ErrRepoBaseMismatch); cbn [negb]; [| reflexivity].
  unfold bind at 1. unfold get. cbn [actors merged with_calls].
  destruct (LookupUser env (actors s1) (User.ID u)) as [e | ai]; cbn [lift].
  - reflexivity.
  - unfold bind, ret, emit, check.
    destruct (AddToCatchupQueue env host ai evt); reflexivity.
Qed.

Lemma catchup_queue_merged host uid ra s :
  catchup_queue (merged host uid ra s) = catchup_queue s.
Proof. unfold merged. rewrite catchup_queue_emit. apply app_nil_r. Qed.

Lemma merge_calls_merged host uid ra s :
  merge_calls (merged host uid ra s)
  = (merge_calls s ++ [(PDS.ID host, uid, RepoAppend.Prev ra)])%list.
Proof. unfold merged. rewrite merge_calls_emit. reflexivity. Qed.

(** C1, as the code has it.  Let the merge of a repository-append event fail
    with [err].  If [err] is a base mismatch, the handler looks up the actor
    record of the user: when that lookup fails its error is returned and
    nothing is enqueued; otherwise exactly one item, made of the source host,
    that record and the event, is handed to the catch-up queue, and the
    handler returns what the queue answered, not [err].  If [err] is no
    base mismatch, it is returned as it is and nothing is enqueued. *)
Theorem handleFedEvent_merge_failure :
  forall env host evt ra s u s1 err,
    RepoEvent.RepoAppend evt = Some ra ->
    event_user env (RepoEvent.Repo evt) s = (Ret u, s1) ->
    HandleExternalUserEvent env (PDS.ID host) (User.ID u)
      (RepoAppend.Prev ra) (RepoAppend.Ops ra) (RepoAppend.Car ra) = Some err ->
    (errors_Is err ErrRepoBaseMismatch = true ->
     (forall ai,
         LookupUser env (actors s1) (User.ID u) = inr ai ->
         fst (handleFedEvent env host evt s)
           = match AddToCatchupQueue env host ai evt with
             | None => Ret tt
             | Some e => Fail e
             end
         /\ catchup_queue (snd (handleFedEvent env host evt s))
            = (catchup_queue s ++ [(host, ai, evt)])%list)
     /\ (forall e,
            LookupUser env (actors s1) (User.ID u) = inl e ->
            fst (handleFedEvent env host evt s) = Fail e
            /\ catchup_queue (snd (handleFedEvent env host evt s))
               = catchup_queue s))
    /\ (errors_Is err ErrRepoBaseMismatch = false ->
        fst (handleFedEvent env host evt s) = Fail err
        /\ catchup_queue (snd (handleFedEvent env host evt s))
           = catchup_queue s).
Proof.
  intros env host evt ra s u s1 err Hra Hu Hmerge.
  pose proof (handleFedEvent_known_user env host evt ra s u s1 Hra Hu) as H.
  cbv zeta in H. rewrite Hmerge in H.
  apply event_user_inv in Hu as ((Q & _) & _).
  split; [intros B; split | intros B]; rewrite B in H.
  - intros ai L. rewrite L in H. rewrite H. cbn [fst snd]. split.
    + reflexivity.
    + rewrite catchup_queue_emit, catchup_queue_merged, Q. reflexivity.
  - intros e L. rewrite L in H. rewrite H. cbn [fst snd].
    rewrite catchup_queue_merged, Q. split; reflexivity.
  - rewrite H. cbn [fst snd]. rewrite catchup_queue_merged, Q.
    split; reflexivity.
Qed.

Lemma handleFedEvent_merge_failure_witness :
  (fst (handleFedEvent world source_host
          (append_event 7 "did:plc:alice" "stale") alice_known) = Ret tt
   /\ catchup_queue (snd (handleFedEvent world source_host
                            (append_event 7 "did:plc:alice" "stale")
                            alice_known))
      = (catchup_queue alice_known
         ++ [(source_host, alice_info,
              append_event 7 "did:plc:alice" "stale")])%list)
  /\ (fst (handleFedEvent world source_host
             (RepoEvent.mk 8 "did:plc:alice" (Some (RepoAppend.mk None [] [])))
             alice_known) = Fail (New "malformed commit")
      /\ catchup_queue (snd (handleFedEvent world source_host
                               (RepoEvent.mk 8 "did:plc:alice"
                                  (Some (RepoAppend.mk None [] [])))
                               alice_known))
         = catchup_queue alice_known).
Proof.
  split.
  - apply (proj1 (proj1 (handleFedEvent_merge_failure world source_host
                    (append_event 7 "did:plc:alice" "stale")
                    (RepoAppend.mk (Some "stale") [] []) alice_known
                    (User.mk 1 "alice.example" "did:plc:alice" 1) alice_known
                    (Errorf_w "opening delta session: "
                       (Sentinel ErrRepoBaseMismatch))
                    eq_refl eq_refl eq_refl) eq_refl) alice_info).
    reflexivity.
  - apply (proj2 (handleFedEvent_merge_failure world source_host
                    (RepoEvent.mk 8 "did:plc:alice"
                       (Some (RepoAppend.mk None [] [])))
                    (RepoAppend.mk None [] []) alice_known
                    (User.mk 1 "alice.example" "did:plc:alice" 1) alice_known
                    (New "malformed commit")
                    eq_refl eq_refl eq_refl)).
    reflexivity.
Defined.

(** C1 as written fails: dave has a user row and no actor record, the merge
    of his event is rejected as a base mismatch, and the handler returns the
    error of the record lookup without enqueuing anything. *)
Lemma handleFedEvent_base_mismatch_not_always_enqueued :
  lookupUserByDid world "did:plc:dave" dave_half_known
    = (Ret (User.mk 1 "dave.example" "did:plc:dave" 1), dave_half_known)
  /\ (exists err,
         HandleExternalUserEvent world (PDS.ID source_host) 1 (Some "stale")
           [] [] = Some err
         /\ errors_Is err ErrRepoBaseMismatch = true)
  /\ fst (handleFedEvent world source_host
            (append_event 9 "did:plc:dave" "stale") dave_half_known)
     = Fail (Sentinel ErrRecordNotFound)
  /\ catchup_queue (snd (handleFedEvent world source_host
                           (append_event 9 "did:plc:dave" "stale")
                           dave_half_known)) = [].
Proof.
  split; [reflexivity |]. split.
  - eexists. split; reflexivity.
  - split; reflexivity.
Qed.

(** C8.  Let a repository-append event name a repository for which the
    users table holds no row, the lookup itself going through.  Then the
    handler runs [createExternalUser] on the spot.  If that fails, the
    handler fails with that error (wrapped), with no merge attempted and
    nothing enqueued; a panic passes through.  If it succeeds, a row for
    the repository has been added to the users table and the one merge
    attempt made carries the id of that row. *)
Theorem handleFedEvent_unknown_user :
  forall env host evt ra s,
    RepoEvent.RepoAppend evt = Some ra ->
    db_fault env (FindUser (RepoEvent.Repo evt)) = None ->
    (forall u, In u (users s) -> User.Did u <> RepoEvent.Repo evt) ->
    match createExternalUser env (RepoEvent.Repo evt) s with
    | (Fail e, s1) =>
      handleFedEvent env host evt s
        = (Fail (Errorf_w "fed event create external user: " e), s1)
      /\ catchup_queue s1 = catchup_queue s
      /\ merge_calls s1 = merge_calls s
    | (Panic, s1) =>
      handleFedEvent env host evt s = (Panic, s1)
      /\ catchup_queue s1 = catchup_queue s
      /\ merge_calls s1 = merge_calls s
    | (Ret subj, s1) =>
      (exists u, users s1 = (users s ++ [u])%list
                 /\ User.Did u = RepoEvent.Repo evt
                 /\ User.ID u = ActorInfo.Uid subj)
      /\ merge_calls (snd (handleFedEvent env host evt s))
         = (merge_calls s
            ++ [(PDS.ID host, ActorInfo.Uid subj, RepoAppend.Prev ra)])%list
      /\ users (snd (handleFedEvent env host evt s)) = users s1
    end.
Proof.
  intros env host evt ra s Hra Hf Hno.
  pose proof (event_user_unknown env _ s Hf Hno) as E.
  destruct (createExternalUser env (RepoEvent.Repo evt) s)
    as [[subj | e | ] s1] eqn:C;
    apply createExternalUser_inv in C as ((Q1 & Q2 & _) & _ & R).
  - destruct (R subj eq_refl) as (u & c & p & U & D & I & _).
    split; [exists u; auto |].
    rewrite (handleFedEvent_known_user env host evt ra s _ s1 Hra E).
    cbv zeta. cbn [User.ID].
    destruct (HandleExternalUserEvent env (PDS.ID host) (ActorInfo.Uid subj)
                (RepoAppend.Prev ra) (RepoAppend.Ops ra) (RepoAppend.Car ra))
      as [err |].
    + destruct (errors_Is err ErrRepoBaseMismatch).
      * destruct (LookupUser env (actors s1) (ActorInfo.Uid subj));
          cbn [snd]; rewrite ?merge_calls_emit, ?app_nil_r,
            merge_calls_merged, Q2; split; reflexivity.
      * cbn [snd]. rewrite merge_calls_merged, Q2. split; reflexivity.
    + cbn [snd]. rewrite merge_calls_merged, Q2. split; reflexivity.
  - unfold handleFedEvent. rewrite Hra, (bind_fail _ _ _ _ _ E). auto.
  - unfold handleFedEvent. rewrite Hra, (bind_panic _ _ _ _ E). auto.
Qed.

Lemma handleFedEvent_unknown_user_witness :
  ((exists u, users alice_known = (users empty_state ++ [u])%list
              /\ User.Did u = "did:plc:alice"
              /\ User.ID u = ActorInfo.Uid alice_info)
   /\ merge_calls (snd (handleFedEvent world source_host
                          (append_event 5 "did:plc:alice" "head") empty_state))
      = (merge_calls empty_state ++ [(1, 1, Some "head")])%list
   /\ users (snd (handleFedEvent world source_host
                    (append_event 5 "did:plc:alice" "head") empty_state))
      = users alice_known)
  /\ (handleFedEvent world source_host
        (append_event 6 "did:plc:eve" "head") empty_state
      = (Fail (Errorf_w "fed event create external user: "
                 (handle_mismatch "alice.example" "bob.example")),
         snd (createExternalUser world "did:plc:eve" empty_state))
      /\ catchup_queue (snd (createExternalUser world "did:plc:eve" empty_state))
         = catchup_queue empty_state
      /\ merge_calls (snd (createExternalUser world "did:plc:eve" empty_state))
         = merge_calls empty_state).
Proof.
  split.
  - apply (handleFedEvent_unknown_user world source_host
             (append_event 5 "did:plc:alice" "head")
             (RepoAppend.mk (Some "head") [] []) empty_state eq_refl eq_refl).
    intros u [].
  - apply (handleFedEvent_unknown_user world source_host
             (append_event 6 "did:plc:eve" "head")
             (RepoAppend.mk (Some "head") [] []) empty_state eq_refl eq_refl).
    intros u [].
Defined.

(** ** Lookup before create *)

Lemma handleFedEvent_users env host evt s r s' :
  handleFedEvent env host evt s = (r, s') ->
  users_step (RepoEvent.Repo evt) s s'.
Proof.
  intros H. destruct (RepoEvent.RepoAppend evt) as [ra |] eqn:Hra.
  - destruct (event_user env (RepoEvent.Repo evt) s) as [[u | e | ] s1] eqn:E.
    + rewrite (handleFedEvent_known_user env host evt ra s u s1 Hra E) in H.
      cbv zeta in H. apply event_user_inv in E as (_ & US).
      assert (U : users s' = users s1).
      { destruct (HandleExternalUserEvent env (PDS.ID host) (User.ID u)
                    (RepoAppend.Prev ra) (RepoAppend.Ops ra)
                    (RepoAppend.Car ra)) as [err |].
        - destruct (errors_Is err ErrRepoBaseMismatch).
          + destruct (LookupUser env (actors s1) (User.ID u)); inv H;
              reflexivity.
          + inv H. reflexivity.
        - inv H. reflexivity. }
      unfold users_step in *. rewrite U. exact US.
    + unfold handleFedEvent in H. rewrite Hra, (bind_fail _ _ _ _ _ E) in H.
      inv H. apply event_user_inv in E as (_ & US). exact US.
    + unfold handleFedEvent in H. rewrite Hra, (bind_panic _ _ _ _ E) in H.
      inv H. apply event_user_inv in E as (_ & US). exact US.
  - unfold handleFedEvent in H. rewrite Hra in H. inv H. left. reflexivity.
Qed.

Lemma count_did_one did u : User.Did u = did -> count_did did [u] = 1%nat.
Proof.
  intros E. unfold count_did. cbn. rewrite E, String.eqb_refl. reflexivity.
Qed.

(** Resolving twice in a row through [createExternalUser] itself: the unique
    index on [did] keeps the second row out. *)
Lemma createExternalUser_twice env1 env2 did s r1 s1 r2 s2 :
  count_did did (users s) = 0%nat ->
  createExternalUser env1 did s = (r1, s1) ->
  createExternalUser env2 did s1 = (r2, s2) ->
  (count_did did (users s2) <= 1)%nat.
Proof.
  intros H0 H1 H2.
  apply createExternalUser_inv in H1 as (_ & [U1 | (u1 & U1 & D1 & _)] & _);
    apply createExternalUser_inv in H2 as (_ & [U2 | (u2 & U2 & D2 & _ & N2)] & _);
    rewrite U2, ?count_did_app, ?U1, ?count_did_app, ?H0,
      ?(count_did_one _ _ D1), ?(count_did_one _ _ D2); try lia.
  rewrite U1, count_did_app, H0, (count_did_one _ _ D1) in N2. discriminate.
Qed.

(** C4.  Two events for the same repository, handled one after the other
    from a state whose users table has no row for it: afterwards the table
    holds at most one row for it; if the first call created the row, the
    second call leaves the users table as it is, and (its lookup going
    through) it finds that row without running the resolution again. *)
Theorem handleFedEvent_no_second_user :
  forall env1 env2 host1 host2 evt1 evt2 did s r1 s1 r2 s2,
    RepoEvent.Repo evt1 = did ->
    RepoEvent.Repo evt2 = did ->
    count_did did (users s) = 0%nat ->
    handleFedEvent env1 host1 evt1 s = (r1, s1) ->
    handleFedEvent env2 host2 evt2 s1 = (r2, s2) ->
    (count_did did (users s2) <= 1)%nat
    /\ (count_did did (users s1) = 1%nat ->
        users s2 = users s1
        /\ (db_fault env2 (FindUser did) = None ->
            exists u, In u (users s1) /\ User.Did u = did
                      /\ event_user env2 did s1 = (Ret u, s1))).
Proof.
  intros env1 env2 host1 host2 evt1 evt2 did s r1 s1 r2 s2 E1 E2 H0 H1 H2.
  apply handleFedEvent_users in H1. apply handleFedEvent_users in H2.
  rewrite E1 in H1. rewrite E2 in H2.
  destruct H1 as [U1 | (u1 & U1 & D1 & I1 & _)].
  - (* the first call created nothing *)
    split.
    + destruct H2 as [U2 | (u2 & U2 & D2 & _)];
        rewrite U2, ?count_did_app, U1, H0, ?(count_did_one _ _ D2); lia.
    + rewrite U1, H0. discriminate.
  - (* the first call created the row [u1] *)
    assert (C1 : count_did did (users s1) = 1%nat).
    { rewrite U1, count_did_app, H0, (count_did_one _ _ D1). reflexivity. }
    assert (U2 : users s2 = users s1).
    { destruct H2 as [U2 | (u2 & _ & _ & _ & N2)]; [exact U2 |].
      rewrite C1 in N2. discriminate. }
    split; [rewrite U2, C1; lia |].
    intros _. split; [exact U2 |].
    intros Hf. exists u1. split; [rewrite U1; apply in_or_app; right; left; reflexivity |].
    split; [exact D1 |].
    unfold event_user, on_error, lookupUserByDid, bind, db_Find_user.
    rewrite Hf, U1, (find_user_fresh did (users s) u1 H0 D1).
    destruct (User.ID u1 =? 0) eqn:Z; [apply Z.eqb_eq in Z; lia | reflexivity].
Qed.

Lemma handleFedEvent_no_second_user_witness :
  (count_did "did:plc:alice"
     (users (snd (handleFedEvent world source_host
                    (append_event 6 "did:plc:alice" "head")
                    (snd (handleFedEvent world source_host
                            (append_event 5 "did:plc:alice" "head")
                            empty_state))))) <= 1)%nat
  /\ (count_did "did:plc:alice"
        (users (snd (handleFedEvent world source_host
                       (append_event 5 "did:plc:alice" "head") empty_state)))
      = 1%nat ->
      users (snd (handleFedEvent world source_host
                    (append_event 6 "did:plc:alice" "head")
                    (snd (handleFedEvent world source_host
                            (append_event 5 "did:plc:alice" "head")
                            empty_state))))
      = users (snd (handleFedEvent world source_host
                      (append_event 5 "did:plc:alice" "head") empty_state))
      /\ (db_fault world (FindUser "did:plc:alice") = None ->
          exists u,
            In u (users (snd (handleFedEvent world source_host
                                (append_event 5 "did:plc:alice" "head")
                                empty_state)))
            /\ User.Did u = "did:plc:alice"
            /\ event_user world "did:plc:alice"
                 (snd (handleFedEvent world source_host
                         (append_event 5 "did:plc:alice" "head") empty_state))
               = (Ret u,
                  snd (handleFedEvent world source_host
                         (append_event 5 "did:plc:alice" "head")
                         empty_state)))).
Proof.
  apply (handleFedEvent_no_second_user world world source_host source_host
           (append_event 5 "did:plc:alice" "head")
           (append_event 6 "did:plc:alice" "head")
           "did:plc:alice" empty_state
           (fst (handleFedEvent world source_host
                   (append_event 5 "did:plc:alice" "head") empty_state))
           _
           (fst (handleFedEvent world source_host
                   (append_event 6 "did:plc:alice" "head")
                   (snd (handleFedEvent world source_host
                           (append_event 5 "did:plc:alice" "head")
                           empty_state))))
           _); reflexivity.
Defined.

(** On the sample, the second event leaves one row for alice. *)
Example alice_seen_twice :
  users (snd (handleFedEvent world source_host
                (append_event 6 "did:plc:alice" "head")
                (snd (handleFedEvent world source_host
                        (append_event 5 "did:plc:alice" "head") empty_state))))
  = [User.mk 1 "alice.example" "did:plc:alice" 1].
Proof. reflexivity. Qed.

(** ** The host key of a peering record *)

(** Whatever the tables hold, a host that the lookup does not find is
    recorded under the whole endpoint string, not under the host that was
    looked up. *)
Lemma peering_for_records_endpoint env svc durl c s p s' :
  peering_for env svc durl c s = (Ret p, s') ->
  PDS.ID (find_pds (URL.Host durl) (pdss s)) = 0 ->
  PDS.Host p = Service.ServiceEndpoint svc
  /\ exists s1, pdss s' = (pdss s1 ++ [p])%list /\ pdss s1 = pdss s.
Proof.
  unfold peering_for. intros H Hz. unbind H peering s1 Hf; try discriminate.
  apply db_Find_pds_inv in Hf as [-> [Hf | (e & Hf)]]; [| discriminate].
  inv Hf. rewrite Hz in H. cbn [Z.eqb] in H.
  unfold bind at 1 in H. unfold emit at 1 in H.
  unbind H pdsdid s2 Hp; try discriminate.
  unfold on_error in Hp.
  match type of Hp with
  | match ?c with _ => _ end = _ =>
    destruct c as [[y | y | ] t] eqn:L; apply lift_inv in L as [-> _]; inv Hp
  end.
  apply db_Create_pds_inv in H as (_ & _ & _ & [(e & E & _) | (p' & E & P & Hh & _)]);
    [discriminate |].
  inv E. split; [exact Hh |]. eexists. split; [exact P | reflexivity].
Qed.

(** C3, on the sample.  The first resolution on pds.example.com looks the
    host up as [pds.example.com] and records it as
    [https://pds.example.com].  The lookup of the second resolution, for the
    same endpoint, therefore misses the record: the host is probed a second
    time and a second record is sent to the table, which its unique
    constraint turns down, so the resolution of bob fails. *)
Theorem createExternalUser_peering_key_mismatch :
  service_url world (Service.mk pds_endpoint)
    = inr (URL.mk "https" "pds.example.com" "")
  /\ pdss alice_known
     = [PDS.mk 1 "https://pds.example.com" "did:web:pds.example.com"]
  /\ find_pds "pds.example.com" (pdss alice_known) = PDS.zero
  /\ probes alice_known = [pds_client]
  /\ fst (createExternalUser world "did:plc:bob" alice_known)
     = Fail (New "UNIQUE constraint failed: pds.host")
  /\ probes (snd (createExternalUser world "did:plc:bob" alice_known))
     = [pds_client; pds_client]
  /\ users (snd (createExternalUser world "did:plc:bob" alice_known))
     = users alice_known.
Proof. repeat split. Qed.

(** ** The event stream *)

Lemma subscriptions_app t t' :
  subscriptions (t ++ t') = (subscriptions t ++ subscriptions t')%list.
Proof. unfold subscriptions. apply flat_map_app. Qed.

Lemma filters_app t t' : filters (t ++ t') = (filters t ++ filters t')%list.
Proof. unfold filters. apply flat_map_app. Qed.

Lemma stream_no_subscribe w h evts :
  forall i, subscriptions (snd (stream w h i evts)) = []
            /\ filters (snd (stream w h i evts)) = [].
Proof.
  induction evts as [| evt rest IH]; intros i; cbn; [split; reflexivity |].
  destruct (write_fault w i SNextWriter); [split; reflexivity |].
  destruct (write_fault w i SHeader); [split; reflexivity |].
  destruct (write_fault w i SEvent); [split; reflexivity |].
  destruct (write_fault w i SClose); [split; reflexivity |].
  specialize (IH (S i)). destruct (stream w h (S i) rest) as [r t].
  exact IH.
Qed.

Lemma stream_spec w evts :
  forall i,
    stream_shape w i evts (fst (stream w (EventHeader.mk "data") i evts))
      (snd (stream w (EventHeader.mk "data") i evts)).
Proof.
  induction evts as [| evt rest IH]; intros i.
  - exists 0%nat, []. split; [reflexivity |]. left. repeat split.
    intros j st Hj. cbn in Hj. lia.
  - cbn [stream].
    assert (Stop : forall st e t,
               write_fault w i st = Some e ->
               t = firstn (step_index st) (frame evt) ->
               stream_shape w i (evt :: rest) (Fail (step_error st e)) t).
    { intros st e t Hst Ht. exists 0%nat, t. split; [reflexivity |]. right.
      exists evt, st, e. rewrite Nat.add_0_r. repeat split; auto.
      intros j st' Hj. lia. }
    destruct (write_fault w i SNextWriter) as [e |] eqn:F0;
      [apply (Stop SNextWriter e); auto |].
    destruct (write_fault w i SHeader) as [e |] eqn:F1;
      [apply (Stop SHeader e); auto |].
    destruct (write_fault w i SEvent) as [e |] eqn:F2;
      [apply (Stop SEvent e); auto |].
    destruct (write_fault w i SClose) as [e |] eqn:F3;
      [apply (Stop SClose e); auto |].
    assert (Here : forall st, write_fault w (i + 0) st = None).
    { intros st. rewrite Nat.add_0_r. destruct st; assumption. }
    specialize (IH (S i)).
    destruct (stream w (EventHeader.mk "data") (S i) rest) as [r t].
    cbn [fst snd] in *.
    destruct IH as (n & partial & Ht & Hr).
    exists (S n), partial. split.
    + rewrite Ht. cbn [firstn flat_map]. rewrite <- app_assoc. reflexivity.
    + destruct Hr as [(Er & En & Ep & Hnone)
                     | (evt' & st & e & Hn & Ep & Hf & Er & Hnone)].
      * left. repeat split; auto.
        -- cbn. congruence.
        -- intros j st Hj. destruct j as [| j]; [apply Here |].
           rewrite Nat.add_succ_r. apply Hnone. cbn in Hj. lia.
      * right. exists evt', st, e. rewrite Nat.add_succ_r. repeat split; auto.
        intros j st' Hj. destruct j as [| j]; [apply Here |].
        rewrite Nat.add_succ_r. apply Hnone. lia.
Qed.

Lemma EventsHandler_subscribed w hdr since evts :
  Upgrade w = None ->
  since_cursor (Header_Get hdr) = inr since ->
  Subscribe w events_filter since = inr evts ->
  EventsHandler w hdr
  = (fst (stream w (EventHeader.mk "data") 0 evts),
     [IoSubscribe events_filter since]
       ++ snd (stream w (EventHeader.mk "data") 0 evts) ++ [IoCancel])%list.
Proof.
  intros Hu Hs Hsub. unfold EventsHandler. rewrite Hu, Hs, Hsub.
  destruct (stream w (EventHeader.mk "data") 0 evts). reflexivity.
Qed.

(** C6.  Once the handler has subscribed and [evts] are the events
    delivered to it, what it does to the connection is: for each event, in
    order, one binary writer, the header naming the kind [data], the event
    itself, and the close of the writer, nothing in between; after the last
    event it cancels the subscription and returns.  The first step that
    fails, if any, ends the run there: nothing of a later event is written,
    the subscription is cancelled and the handler returns that step's
    error. *)
Theorem EventsHandler_frames :
  forall w hdr since evts,
    Upgrade w = None ->
    since_cursor (Header_Get hdr) = inr since ->
    Subscribe w events_filter since = inr evts ->
    exists t,
      snd (EventsHandler w hdr)
        = ([IoSubscribe events_filter since] ++ t ++ [IoCancel])%list
      /\ stream_shape w 0 evts (fst (EventsHandler w hdr)) t.
Proof.
  intros w hdr since evts Hu Hs Hsub.
  rewrite (EventsHandler_subscribed w hdr since evts Hu Hs Hsub).
  cbn [fst snd]. eexists. split; [reflexivity |]. apply stream_spec.
Qed.

Lemma EventsHandler_frames_witness :
  exists t,
    snd (EventsHandler flaky_wire (Some "2"))
      = ([IoSubscribe events_filter (Some 2)] ++ t ++ [IoCancel])%list
    /\ stream_shape flaky_wire 0 sample_events
         (fst (EventsHandler flaky_wire (Some "2"))) t.
Proof.
  apply (EventsHandler_frames flaky_wire (Some "2") (Some 2) sample_events);
    reflexivity.
Defined.

(** On the sample: one whole frame, then the second frame up to the body
    that fails to encode, then the cancel. *)
Example flaky_stream :
  EventsHandler flaky_wire None
  = (Fail (Errorf_w "failed to write event: " (New "write: broken pipe")),
     [IoSubscribe events_filter None;
      IoNextWriter 2; IoHeader (EventHeader.mk "data");
      IoEvent (append_event 3 "did:plc:alice" "head"); IoClose;
      IoNextWriter 2; IoHeader (EventHeader.mk "data");
      IoCancel]).
Proof. reflexivity. Qed.

(** With no failing step every event gets its frame. *)
Lemma EventsHandler_all_frames w hdr since evts :
  Upgrade w = None ->
  since_cursor (Header_Get hdr) = inr since ->
  Subscribe w events_filter since = inr evts ->
  (forall i st, write_fault w i st = None) ->
  EventsHandler w hdr
  = (Ret tt,
     [IoSubscribe events_filter since] ++ flat_map frame evts ++ [IoCancel])%list.
Proof.
  intros Hu Hs Hsub Hnone.
  rewrite (EventsHandler_subscribed w hdr since evts Hu Hs Hsub).
  destruct (stream_spec w evts 0%nat) as (n & partial & E & Hr).
  destruct (stream w (EventHeader.mk "data") 0 evts) as [r t].
  cbn [fst snd] in *.
  destruct Hr as [(Er & En & Ep & _) | (evt & st & e & _ & _ & Hf & _)].
  - subst n partial r. rewrite firstn_all, app_nil_r in E. subst t.
    reflexivity.
  - rewrite Hnone in Hf. discriminate.
Qed.

(** ** The cursor of a subscription *)

Example ParseInt_samples :
  ParseInt "-9223372036854775808" = inr (-9223372036854775808)
  /\ ParseInt "9223372036854775808"
     = inl (Errorf_w "strconv.ParseInt: " ErrRange)
  /\ ParseInt "+12" = inr 12
  /\ ParseInt "-" = inl (Errorf_w "strconv.ParseInt: " ErrSyntax)
  /\ ParseInt "1_0" = inl (Errorf_w "strconv.ParseInt: " ErrSyntax)
  /\ ParseInt " 7" = inl (Errorf_w "strconv.ParseInt: " ErrSyntax).
Proof. repeat split. Qed.




(** ** add-target *)

(** C7, as the code has it.  A body with an empty host is turned down with
    the error [no host specified] and the state as it was, the slurper not
    having been called; a body with a host makes one call to the slurper for
    that host and returns what it answered.  Either error is answered by the
    server's error handler with status 500. *)
Theorem handleAddTarget_spec :
  forall env body s,
    (addTargetBody.Host body = "" ->
     handleAddTarget env (inr body) s = (Fail (New "no host specified"), s)
     /\ HTTPErrorHandler (New "no host specified") = 500)
    /\ (addTargetBody.Host body <> "" ->
        handleAddTarget env (inr body) s
        = (match SubscribeToPds env (addTargetBody.Host body) with
           | None => Ret tt
           | Some e => Fail e
           end,
           with_calls (calls s ++ [CallSubscribeToPds (addTargetBody.Host body)])%list s)
        /\ forall e, SubscribeToPds env (addTargetBody.Host body) = Some e ->
                     HTTPErrorHandler e = 500).
Proof.
  intros env body s. split.
  - intros He. split; [| reflexivity].
    unfold handleAddTarget, bind. cbn [lift ret]. rewrite He. reflexivity.
  - intros Hne. split; [| reflexivity].
    unfold handleAddTarget, bind. cbn [lift ret].
    apply String.eqb_neq in Hne. rewrite Hne. cbn [emit].
    unfold check. destruct (SubscribeToPds env (addTargetBody.Host body));
      reflexivity.
Qed.

Lemma handleAddTarget_spec_witness :
  (handleAddTarget world (inr (addTargetBody.mk "")) empty_state
     = (Fail (New "no host specified"), empty_state)
   /\ HTTPErrorHandler (New "no host specified") = 500)
  /\ (handleAddTarget world (inr (addTargetBody.mk "down.example")) empty_state
        = (Fail (New "dial: connection refused"),
           with_calls [CallSubscribeToPds "down.example"] empty_state)
      /\ forall e, SubscribeToPds world "down.example" = Some e ->
                   HTTPErrorHandler e = 500).
Proof.
  split.
  - apply (proj1 (handleAddTarget_spec world (addTargetBody.mk "") empty_state)).
    reflexivity.
  - apply (proj2 (handleAddTarget_spec world (addTargetBody.mk "down.example")
                    empty_state)).
    discriminate.
Defined.

(** C7 as written fails: the request with an empty host is answered with
    status 500, the very status of a failure of the slurper, and 500 is no
    client error. *)
Lemma handleAddTarget_empty_host_is_500 :
  handleAddTarget world (inr (addTargetBody.mk "")) empty_state
    = (Fail (New "no host specified"), empty_state)
  /\ HTTPErrorHandler (New "no host specified") = 500
  /\ is_client_error (HTTPErrorHandler (New "no host specified")) = false
  /\ handleAddTarget world (inr (addTargetBody.mk "down.example")) empty_state
     = (Fail (New "dial: connection refused"),
        with_calls [CallSubscribeToPds "down.example"] empty_state)
  /\ HTTPErrorHandler (New "dial: connection refused") = 500.
Proof. repeat split. Qed.

(** * Further properties of the relay *)

(** ** Runs of the table statements, in full *)

Lemma probes_emit s c :
  probes (with_calls (calls s ++ [c]) s)
  = (probes s ++
     match c with
     | CallHandleResolve cl _ => [cl]
     | _ => []
     end)%list.
Proof.
  unfold probes; cbn. rewrite flat_map_app; cbn.
  rewrite app_nil_r. reflexivity.
Qed.

Lemma db_Create_user_run env u s r s' :
  db_Create_user env u s = (r, s') ->
  (exists e, r = Fail e /\ s' = s)
  \/ (exists u',
         r = Ret u'
         /\ u' = User.mk (next_id User.ID (users s)) (User.Handle u)
                   (User.Did u) (User.PDS u)
         /\ s' = with_users (users s ++ [u']) s
         /\ existsb (fun x => User.Did x =? User.Did u)%string (users s) = false
         /\ existsb (fun x => User.Handle x =? User.Handle u)%string (users s)
            = false).
Proof.
  unfold db_Create_user. destruct (db_fault env (CreateUser u)).
  - intros H; inv H. left. eauto.
  - destruct (existsb (fun x => (User.Did x =? User.Did u)%string) (users s))
      eqn:Ed.
    + intros H; inv H. left. eauto.
    + destruct (existsb (fun x => (User.Handle x =? User.Handle u)%string)
                  (users s)) eqn:Eh; intros H; inv H.
      * left. eauto.
      * right. eexists. repeat split; auto.
Qed.

Lemma db_Create_actor_run env a s r s' :
  db_Create_actor env a s = (r, s') ->
  (exists e, r = Fail e /\ s' = s /\ db_fault env (CreateActorInfo a) = Some e)
  \/ (r = Ret tt /\ s' = with_actors (actors s ++ [a]) s).
Proof.
  unfold db_Create_actor.
  destruct (db_fault env (CreateActorInfo a)) eqn:E; intros H; inv H.
  - left. eauto.
  - right. auto.
Qed.

Lemma find_pds_in host rows :
  PDS.ID (find_pds host rows) <> 0 ->
  In (find_pds host rows) rows /\ PDS.Host (find_pds host rows) = host.
Proof.
  unfold find_pds.
  destruct (find (fun p => (PDS.Host p =? host)%string) rows) as [p |] eqn:F.
  - intros _. apply find_some in F as [Hin Heq].
    apply String.eqb_eq in Heq. auto.
  - cbn. intros H. destruct (H eq_refl).
Qed.

(** A run of the peering step: either the record was found and nothing
    else happened, or the host was probed once and, the probe and the insert
    going through, recorded under the service endpoint. *)
Lemma peering_for_run env svc durl c s r s1 :
  peering_for env svc durl c s = (r, s1) ->
  users s1 = users s /\ actors s1 = actors s /\ same_effects s s1
  /\ ((pdss s1 = pdss s /\ probes s1 = probes s
       /\ forall p, r = Ret p ->
                    p = find_pds (URL.Host durl) (pdss s) /\ PDS.ID p <> 0)
      \/ (probes s1 = (probes s ++ [c])%list
          /\ PDS.ID (find_pds (URL.Host durl) (pdss s)) = 0
          /\ ((pdss s1 = pdss s /\ exists e, r = Fail e)
              \/ (exists pdsdid p,
                     HandleResolve env c "" = inr pdsdid
                     /\ r = Ret p
                     /\ p = PDS.mk (next_id PDS.ID (pdss s))
                              (Service.ServiceEndpoint svc) pdsdid
                     /\ pdss s1 = (pdss s ++ [p])%list
                     /\ existsb (fun x => PDS.Host x
                                          =? Service.ServiceEndpoint svc)%string
                          (pdss s) = false)))).
Proof.
  intros H. pose proof (peering_for_quiet _ _ _ _ _ _ _ H) as (U & A & SE).
  split; [exact U |]. split; [exact A |]. split; [exact SE |].
  revert H. unfold peering_for, bind, db_Find_pds.
  destruct (db_fault env (FindPDS (URL.Host durl))).
  { intros H; inv H. left. split; [reflexivity |]. split; [reflexivity |].
    intros p Hp. discriminate. }
  destruct (PDS.ID (find_pds (URL.Host durl) (pdss s)) =? 0) eqn:Z.
  - apply Z.eqb_eq in Z. unfold emit, on_error, lift.
    destruct (HandleResolve env c "") as [e | pdsdid] eqn:HR; cbn.
    + intros H; inv H. right. rewrite probes_emit. repeat split; auto.
      left. split; [reflexivity | eauto].
    + unfold db_Create_pds. cbn [PDS.Host PDS.Did pdss with_calls].
      destruct (db_fault env _).
      { intros H; inv H. right. rewrite probes_emit. repeat split; auto.
        left. split; [reflexivity | eauto]. }
      destruct (existsb _ (pdss s)) eqn:Ex; intros H; inv H; right;
        (split; [unfold probes; cbn [calls with_calls with_pdss];
                 rewrite flat_map_app; reflexivity |]);
        (split; [exact Z |]).
      * left. split; [reflexivity | eauto].
      * right. exists pdsdid. eexists. repeat split; auto.
  - apply Z.eqb_neq in Z. intros H; inv H. left.
    split; [reflexivity |]. split; [reflexivity |].
    intros p Hp. inv Hp. split; [reflexivity | exact Z].
Qed.

(** ** A run of createExternalUser, in full *)

Lemma peering_for_no_panic env svc durl c s s1 :
  peering_for env svc durl c s <> (Panic, s1).
Proof.
  unfold peering_for, bind, db_Find_pds.
  destruct (db_fault env (FindPDS (URL.Host durl))); [discriminate |].
  destruct (PDS.ID (find_pds (URL.Host durl) (pdss s)) =? 0);
    [| discriminate].
  unfold emit, on_error, lift.
  destruct (HandleResolve env c ""); cbn; [discriminate |].
  unfold db_Create_pds. destruct (db_fault env _); [discriminate |].
  destruct (existsb _ _); discriminate.
Qed.

Lemma createExternalUser_run env did s r s' :
  createExternalUser env did s = (r, s') ->
  pds_step env s s'
  /\ match r with
     | Ret subj =>
       exists doc c profile u,
         GetDocument env did = inr doc
         /\ candidate_handle env doc = inr (ActorInfo.Handle subj)
         /\ ActorGetProfile env c did = inr profile
         /\ Profile.Handle profile = ActorInfo.Handle subj
         /\ Profile.DisplayName profile = Some (ActorInfo.DisplayName subj)
         /\ user_added did s s' u
         /\ subj = ActorInfo.mk (User.ID u) (User.Handle u)
                     (ActorInfo.DisplayName subj) did
                     (DeclRef.Cid (Profile.Declaration profile)) ""
                     (User.PDS u)
         /\ actors s' = (actors s ++ [subj])%list
     | Fail e =>
       actors s' = actors s
       /\ (users s' = users s
           \/ exists u a, user_added did s s' u
                          /\ ActorInfo.Uid a = User.ID u
                          /\ db_fault env (CreateActorInfo a) = Some e)
     | Panic =>
       actors s' = actors s
       /\ exists u c profile,
            user_added did s s' u
            /\ ActorGetProfile env c did = inr profile
            /\ Profile.DisplayName profile = None
     end.
Proof.
  assert (Q : forall t (x : outcome ActorInfo.t) e,
             x = Fail e -> pds_step env s t ->
             users t = users s -> actors t = actors s ->
             pds_step env s t
             /\ match x with
                | Ret subj => False
                | Fail e => actors t = actors s
                            /\ (users t = users s \/ False)
                | Panic => False
                end).
  { intros t x e -> P U A. split; [exact P |]. split; [exact A | left; exact U]. }
  assert (Q' : forall t (x : outcome ActorInfo.t) e,
             x = Fail e -> pds_step env s t ->
             users t = users s -> actors t = actors s ->
             pds_step env s t
             /\ match x with
                | Ret subj =>
                  exists doc c profile u,
                    GetDocument env did = inr doc
                    /\ candidate_handle env doc = inr (ActorInfo.Handle subj)
                    /\ ActorGetProfile env c did = inr profile
                    /\ Profile.Handle profile = ActorInfo.Handle subj
                    /\ Profile.DisplayName profile
                       = Some (ActorInfo.DisplayName subj)
                    /\ user_added did s t u
                    /\ subj = ActorInfo.mk (User.ID u) (User.Handle u)
                                (ActorInfo.DisplayName subj) did
                                (DeclRef.Cid (Profile.Declaration profile)) ""
                                (User.PDS u)
                    /\ actors t = (actors s ++ [subj])%list
                | Fail e =>
                  actors t = actors s
                  /\ (users t = users s
                      \/ exists u a, user_added did s t u
                                     /\ ActorInfo.Uid a = User.ID u
                                     /\ db_fault env (CreateActorInfo a) = Some e)
                | Panic =>
                  actors t = actors s
                  /\ exists u c profile,
                       user_added did s t u
                       /\ ActorGetProfile env c did = inr profile
                       /\ Profile.DisplayName profile = None
                end).
  { intros t x e -> P U A. split; [exact P |]. split; [exact A | left; exact U]. }
  clear Q.
  assert (P0 : pds_step env s s) by (left; split; reflexivity).
  unfold createExternalUser. intros H.
  unbind H doc s1 Hdoc.
  2: { apply on_error_lift_inv in Hdoc as [-> _]. subst; eapply (Q' _ (Fail _) _ eq_refl); eauto. }
  2: { apply on_error_lift_inv in Hdoc as [-> [(a & _ & E) | (e & E)]];
       discriminate. }
  apply on_error_lift_inv in Hdoc as [-> [(d0 & Hdoc & E) | (e & E)]];
    [| discriminate].
  injection E as <-.
  destruct (Doc.Service doc) as [| svc rest].
  { inv H. subst; eapply (Q' _ (Fail _) _ eq_refl); eauto. }
  unbind H durl s1 Hurl.
  2: { apply lift_inv in Hurl as [-> _]. subst; eapply (Q' _ (Fail _) _ eq_refl); eauto. }
  2: { apply lift_inv in Hurl as [-> [(a & _ & E) | (e & _ & E)]];
       discriminate. }
  apply lift_inv in Hurl as [-> _].
  set (c := Client.mk (url_String env durl)) in *.
  assert (PS : forall x t, peering_for env svc durl c s = (x, t) ->
               pds_step env s t
               /\ forall p, x = Ret p -> In p (pdss t) /\ PDS.ID p <> 0).
  { intros x t Hp. apply peering_for_run in Hp as (_ & _ & _ & Hp).
    destruct Hp as [(Pd & Pr & Hf) | (Pr & Z & [(Pd & e & Ee) | Hc])].
    - split; [left; auto |]. intros p Ep. destruct (Hf p Ep) as [-> Hn].
      split; [| exact Hn]. rewrite Pd. apply find_pds_in, Hn.
    - split; [right; exists c; auto |]. intros p Ep. subst x. discriminate.
    - destruct Hc as (pdsdid & p & HR & Er & Ep & Pd & Ex).
      split.
      + right. exists c. split; [exact Pr |]. right. exists pdsdid, p.
        subst p. cbn. repeat split; auto.
      + intros p' Ep'. subst x. inv Ep'. split.
        * rewrite Pd. apply in_or_app. right. left. reflexivity.
        * cbn [PDS.ID]. pose proof (next_id_pos PDS.ID (pdss s)). lia. }
  unbind H peering s1 Hpeer.
  2: { pose proof (peering_for_quiet _ _ _ _ _ _ _ Hpeer) as (U & A & _).
       apply PS in Hpeer as [P _]. subst; eapply (Q' _ (Fail _) _ eq_refl); eauto. }
  2: { destruct (peering_for_no_panic _ _ _ _ _ _ Hpeer). }
  pose proof (peering_for_quiet _ _ _ _ _ _ _ Hpeer) as (U1 & A1 & _).
  apply PS in Hpeer as [P1 Hin]. destruct (Hin peering eq_refl) as [Hin1 Hnz].
  clear Hin PS.
  unbind H handle s2 Hhandle.
  2: { apply lift_inv in Hhandle as [-> _]. subst; eapply (Q' _ (Fail _) _ eq_refl); eauto. }
  2: { apply lift_inv in Hhandle as [-> [(a & _ & E) | (e & _ & E)]];
       discriminate. }
  apply lift_inv in Hhandle as [-> [(h0 & Hhandle & E) | (e & _ & E)]];
    [| discriminate].
  injection E as <-.
  unbind H profile s2 Hprofile.
  2: { apply lift_inv in Hprofile as [-> _]. subst; eapply (Q' _ (Fail _) _ eq_refl); eauto. }
  2: { apply lift_inv in Hprofile as [-> [(a & _ & E) | (e & _ & E)]];
       discriminate. }
  apply lift_inv in Hprofile as [-> [(p0 & Hprofile & E) | (e & _ & E)]];
    [| discriminate].
  injection E as <-.
  destruct (negb (handle =? Profile.Handle profile)%string) eqn:Hcmp.
  { inv H. subst; eapply (Q' _ (Fail _) _ eq_refl); eauto. }
  apply negb_false_iff, String.eqb_eq in Hcmp.
  unfold bind, on_error in H.
  destruct (db_Create_user env (User.mk 0 handle did (PDS.ID peering)) s1)
    as [[u | e | ] s2] eqn:Hu;
    apply db_Create_user_run in Hu
      as [(e' & Eu & ->) | (u' & Eu & Eu' & -> & Xd & Xh)];
    try discriminate.
  2: { inv H. subst; eapply (Q' _ (Fail _) _ eq_refl); eauto. }
  injection Eu as <-. subst u. cbn [User.Did User.Handle User.PDS] in *.
  set (u := User.mk (next_id User.ID (users s1)) handle did (PDS.ID peering))
    in *.
  assert (UA : forall t, users t = (users s1 ++ [u])%list -> pdss t = pdss s1 ->
                         user_added did s t u).
  { intros t Ut Pt. unfold user_added. rewrite Ut, Pt, U1 in *.
    split; [reflexivity |].
    split; [subst u; cbn [User.ID]; rewrite U1; reflexivity |].
    split; [reflexivity |].
    split; [exists peering; auto |].
    split; assumption. }
  assert (P2 : forall t, pdss t = pdss s1 -> calls t = calls s1 ->
                         pds_step env s t).
  { intros t Pt Ct. unfold pds_step, probes in *. rewrite Pt, Ct. exact P1. }
  destruct (Profile.DisplayName profile) as [displayName |] eqn:Hdn.
  - destruct (db_Create_actor env _ _) as [[x | e | ] s3] eqn:Ha;
      apply db_Create_actor_run in Ha as [(e' & Ea & -> & Hfault) | (Ea & ->)];
      try discriminate; inv H.
    + split; [apply P2; reflexivity |].
      exists doc, c, profile, u. cbn. rewrite A1.
      repeat (split;
              [first [assumption | reflexivity | apply UA; reflexivity] |]).
      reflexivity.
    + inv Ea. split; [apply P2; reflexivity |].
      split; [exact A1 |]. right. eexists u, _.
      split; [| split; [| exact Hfault]].
      * apply UA; reflexivity.
      * reflexivity.
  - inv H. split; [apply P2; reflexivity |].
    split; [exact A1 |]. exists u, c, profile.
    split; [apply UA; reflexivity |]. split; assumption.
Qed.

(** ** Trust in hosts *)

(** X1.  Whatever the directory, the peers and the database answer, one call
    of [createExternalUser] probes at most one host, leaves the peering
    table alone or adds exactly one row to it, and adds that row only after
    the probe of the host answered; the row then carries a fresh key and the
    identifier the host reported. *)
Theorem createExternalUser_peering_only_after_probe :
  forall env did s, pds_step env s (snd (createExternalUser env did s)).
Proof.
  intros env did s.
  destruct (createExternalUser env did s) as [r s'] eqn:H.
  apply createExternalUser_run in H as [P _]. exact P.
Qed.

Lemma createExternalUser_from_peering env did s doc svc rest durl :
  GetDocument env did = inr doc ->
  Doc.Service doc = svc :: rest ->
  service_url env svc = inr durl ->
  createExternalUser env did s
  = bind (peering_for env svc durl (Client.mk (url_String env durl)))
      (fun peering =>
         handle <- lift (candidate_handle env doc) ;;
         profile <- lift (ActorGetProfile env (Client.mk (url_String env durl))
                            did) ;;
         if negb (handle =? Profile.Handle profile)%string then
           fail (handle_mismatch handle (Profile.Handle profile))
         else
           u <- on_error
                  (db_Create_user env (User.mk 0 handle did (PDS.ID peering)))
                  (fun err => fail (Errorf_w
                     "failed to create other pds user: " err)) ;;
           match Profile.DisplayName profile with
           | None => panic
           | Some displayName =>
             let subj := ActorInfo.mk (User.ID u) handle displayName did
                           (DeclRef.Cid (Profile.Declaration profile)) ""
                           (PDS.ID peering) in
             db_Create_actor env subj ;;;
             ret subj
           end) s.
Proof.
  intros Hdoc Hsvc Hurl. unfold createExternalUser.
  rewrite (bind_ret _ _ _ _ _ (fetch_document _ _ _ s Hdoc)).
  rewrite Hsvc, Hurl. cbn [lift].
  rewrite (bind_ret (ret durl) _ s durl s eq_refl). reflexivity.
Qed.

(** The steps after the peering step write to the users and actors tables
    only, make no call, and hand the key of the peering record on. *)
Lemma createExternalUser_after_peering env did doc c peering s1 r s' :
  (handle <- lift (candidate_handle env doc) ;;
   profile <- lift (ActorGetProfile env c did) ;;
   if negb (handle =? Profile.Handle profile)%string then
     fail (handle_mismatch handle (Profile.Handle profile))
   else
     u <- on_error
            (db_Create_user env (User.mk 0 handle did (PDS.ID peering)))
            (fun err => fail (Errorf_w
               "failed to create other pds user: " err)) ;;
     match Profile.DisplayName profile with
     | None => panic
     | Some displayName =>
       let subj := ActorInfo.mk (User.ID u) handle displayName did
                     (DeclRef.Cid (Profile.Declaration profile)) ""
                     (PDS.ID peering) in
       db_Create_actor env subj ;;;
       ret subj
     end) s1 = (r, s') ->
  pdss s' = pdss s1 /\ calls s' = calls s1
  /\ forall subj, r = Ret subj -> ActorInfo.PDS subj = PDS.ID peering.
Proof.
  intros H.
  unbind H handle s2 Hh;
    try (apply lift_inv in Hh as [-> _]; subst r; repeat split; discriminate).
  apply lift_inv in Hh as [-> _].
  unbind H profile s2 Hp;
    try (apply lift_inv in Hp as [-> _]; subst r; repeat split; discriminate).
  apply lift_inv in Hp as [-> _].
  destruct (negb (handle =? Profile.Handle profile)%string).
  { inv H. repeat split; discriminate. }
  unfold bind, on_error in H.
  destruct (db_Create_user env (User.mk 0 handle did (PDS.ID peering)) s1)
    as [[u | e | ] s2] eqn:Hu;
    apply db_Create_user_run in Hu
      as [(e' & Eu & ->) | (u' & Eu & Eu' & -> & _)];
    try discriminate.
  2: { inv H. repeat split; discriminate. }
  destruct (Profile.DisplayName profile) as [displayName |].
  - destruct (db_Create_actor env _ _) as [[x | e | ] s3] eqn:Ha;
      apply db_Create_actor_run in Ha as [(e' & Ea & -> & _) | (Ea & ->)];
      try discriminate; inv H.
    + repeat split. intros subj E. inv E. reflexivity.
    + repeat split. discriminate.
  - inv H. repeat split. discriminate.
Qed.

(** ** The display name of the profile *)

(** A resolution that returns a record has fetched a profile through the
    client built from the first service endpoint, and that profile carries
    the display name of the record. *)
Lemma createExternalUser_after_peering_ret env did doc c peering s1 subj s' :
  (handle <- lift (candidate_handle env doc) ;;
   profile <- lift (ActorGetProfile env c did) ;;
   if negb (handle =? Profile.Handle profile)%string then
     fail (handle_mismatch handle (Profile.Handle profile))
   else
     u <- on_error
            (db_Create_user env (User.mk 0 handle did (PDS.ID peering)))
            (fun err => fail (Errorf_w
               "failed to create other pds user: " err)) ;;
     match Profile.DisplayName profile with
     | None => panic
     | Some displayName =>
       let subj := ActorInfo.mk (User.ID u) handle displayName did
                     (DeclRef.Cid (Profile.Declaration profile)) ""
                     (PDS.ID peering) in
       db_Create_actor env subj ;;;
       ret subj
     end) s1 = (Ret subj, s') ->
  exists profile,
    ActorGetProfile env c did = inr profile
    /\ Profile.DisplayName profile = Some (ActorInfo.DisplayName subj).
Proof.
  intros H.
  unbind H handle s2 Hh; try discriminate.
  apply lift_inv in Hh as [-> _].
  unbind H profile s2 Hp; try discriminate.
  apply lift_inv in Hp as [-> [(p0 & Hp & E) | (e & _ & E)]];
    [| discriminate].
  injection E as <-.
  destruct (negb (handle =? Profile.Handle profile)%string);
    [discriminate |].
  unfold bind, on_error in H.
  destruct (db_Create_user env (User.mk 0 handle did (PDS.ID peering)) s1)
    as [[u | e | ] s2]; try discriminate.
  destruct (Profile.DisplayName profile) as [displayName |] eqn:Hd;
    [| discriminate].
  destruct (db_Create_actor env _ _) as [[x | e | ] s3]; try discriminate.
  inv H. exists profile. split; [exact Hp | exact Hd].
Qed.

Lemma createExternalUser_fetched_profile env did s subj s' :
  createExternalUser env did s = (Ret subj, s') ->
  exists doc svc rest durl profile,
    GetDocument env did = inr doc
    /\ Doc.Service doc = svc :: rest
    /\ service_url env svc = inr durl
    /\ ActorGetProfile env (Client.mk (url_String env durl)) did = inr profile
    /\ Profile.DisplayName profile = Some (ActorInfo.DisplayName subj).
Proof.
  intros H.
  destruct (GetDocument env did) as [e | doc] eqn:Hdoc.
  { unfold createExternalUser, bind, on_error in H. rewrite Hdoc in H.
    discriminate. }
  destruct (Doc.Service doc) as [| svc rest] eqn:Hsvc.
  { unfold createExternalUser in H.
    rewrite (bind_ret _ _ _ _ _ (fetch_document _ _ _ s Hdoc)), Hsvc in H.
    discriminate. }
  destruct (service_url env svc) as [e | durl] eqn:Hurl.
  { unfold createExternalUser in H.
    rewrite (bind_ret _ _ _ _ _ (fetch_document _ _ _ s Hdoc)), Hsvc, Hurl
      in H.
    discriminate. }
  rewrite (createExternalUser_from_peering env did s doc svc rest durl
             Hdoc Hsvc Hurl) in H.
  unbind H peering s1 Hpeer; try discriminate.
  apply createExternalUser_after_peering_ret in H as (profile & Hp & Hd).
  exists doc, svc, rest, durl, profile. auto.
Qed.

(** The dereference of line 282 on a profile without display name: the
    user row is in by then. *)
Lemma createExternalUser_nil_display_name env did s doc svc rest durl
    peering s1 profile u s2 :
  GetDocument env did = inr doc ->
  Doc.Service doc = svc :: rest ->
  service_url env svc = inr durl ->
  peering_for env svc durl (Client.mk (url_String env durl)) s
    = (Ret peering, s1) ->
  candidate_handle env doc = inr (Profile.Handle profile) ->
  ActorGetProfile env (Client.mk (url_String env durl)) did = inr profile ->
  Profile.DisplayName profile = None ->
  db_Create_user env
    (User.mk 0 (Profile.Handle profile) did (PDS.ID peering)) s1
    = (Ret u, s2) ->
  createExternalUser env did s = (Panic, s2).
Proof.
  intros Hdoc Hsvc Hurl Hpeer Hh Hp Hd Hu.
  rewrite (createExternalUser_from_peering env did s doc svc rest durl
             Hdoc Hsvc Hurl).
  rewrite (bind_ret _ _ _ _ _ Hpeer). rewrite Hh, Hp. cbn [lift].
  rewrite (bind_ret (ret (Profile.Handle profile)) _ s1 _ s1 eq_refl).
  rewrite (bind_ret (ret profile) _ s1 profile s1 eq_refl).
  rewrite String.eqb_refl. cbn [negb].
  unfold bind, on_error. rewrite Hu, Hd. reflexivity.
Qed.

(** C9.  A call of [createExternalUser] that returns an actor record has
    fetched, through the client built from the first service endpoint of the
    document, a profile whose display name is present, and that name is the
    one in the record.  When the profile fetched through that client has no
    display name, no call returns normally; and a call that gets as far as
    the insert of the user row with such a profile panics right after that
    insert. *)
Theorem createExternalUser_needs_display_name :
  forall env did s,
    (forall subj s',
        createExternalUser env did s = (Ret subj, s') ->
        exists doc svc rest durl profile,
          GetDocument env did = inr doc
          /\ Doc.Service doc = svc :: rest
          /\ service_url env svc = inr durl
          /\ ActorGetProfile env (Client.mk (url_String env durl)) did
             = inr profile
          /\ Profile.DisplayName profile
             = Some (ActorInfo.DisplayName subj))
    /\ (forall doc svc rest durl profile,
           GetDocument env did = inr doc ->
           Doc.Service doc = svc :: rest ->
           service_url env svc = inr durl ->
           ActorGetProfile env (Client.mk (url_String env durl)) did
             = inr profile ->
           Profile.DisplayName profile = None ->
           (forall subj s', createExternalUser env did s <> (Ret subj, s'))
           /\ (forall peering s1 u s2,
                  peering_for env svc durl (Client.mk (url_String env durl)) s
                    = (Ret peering, s1) ->
                  candidate_handle env doc = inr (Profile.Handle profile) ->
                  db_Create_user env
                    (User.mk 0 (Profile.Handle profile) did (PDS.ID peering))
                    s1 = (Ret u, s2) ->
                  createExternalUser env did s = (Panic, s2))).
Proof.
  intros env did s. split.
  - intros subj s' H. apply createExternalUser_fetched_profile in H. exact H.
  - intros doc svc rest durl profile Hdoc Hsvc Hurl Hp Hd. split.
    + intros subj s' H. apply createExternalUser_fetched_profile in H
        as (doc' & svc' & rest' & durl' & profile' & Hdoc' & Hsvc' & Hurl'
            & Hp' & Hd').
      rewrite Hdoc in Hdoc'. injection Hdoc' as <-.
      rewrite Hsvc in Hsvc'. injection Hsvc' as <- <-.
      rewrite Hurl in Hurl'. injection Hurl' as <-.
      rewrite Hp in Hp'. injection Hp' as <-.
      rewrite Hd in Hd'. discriminate.
    + intros peering s1 u s2 Hpeer Hh Hu.
      eapply createExternalUser_nil_display_name; eauto.
Qed.

Lemma createExternalUser_needs_display_name_witness :
  (exists doc svc rest durl profile,
      GetDocument world "did:plc:alice" = inr doc
      /\ Doc.Service doc = svc :: rest
      /\ service_url world svc = inr durl
      /\ ActorGetProfile world (Client.mk (url_String world durl))
           "did:plc:alice" = inr profile
      /\ Profile.DisplayName profile
         = Some (ActorInfo.DisplayName alice_info))
  /\ (forall subj s',
         createExternalUser world "did:plc:dave" empty_state <> (Ret subj, s'))
  /\ createExternalUser world "did:plc:dave" empty_state
     = (Panic, dave_half_known).
Proof.
  split; [| split].
  - apply (proj1 (createExternalUser_needs_display_name world "did:plc:alice"
                    empty_state) alice_info alice_known).
    reflexivity.
  - apply (proj1 (proj2 (createExternalUser_needs_display_name world
                           "did:plc:dave" empty_state)
                    (Doc.mk [Service.mk pds_endpoint] ["at://dave.example"])
                    (Service.mk pds_endpoint) []
                    (URL.mk "https" "pds.example.com" "")
                    (Profile.mk "dave.example" None (DeclRef.mk "bafydave"))
                    eq_refl eq_refl eq_refl eq_refl eq_refl)).
  - apply (proj2 (proj2 (createExternalUser_needs_display_name world
                           "did:plc:dave" empty_state)
                    (Doc.mk [Service.mk pds_endpoint] ["at://dave.example"])
                    (Service.mk pds_endpoint) []
                    (URL.mk "https" "pds.example.com" "")
                    (Profile.mk "dave.example" None (DeclRef.mk "bafydave"))
                    eq_refl eq_refl eq_refl eq_refl eq_refl)
             (PDS.mk 1 pds_endpoint "did:web:pds.example.com")
             (with_pdss [PDS.mk 1 pds_endpoint "did:web:pds.example.com"]
                (with_calls [CallHandleResolve pds_client ""] empty_state))
             (User.mk 1 "dave.example" "did:plc:dave" 1));
      reflexivity.
Defined.

(** X2.  When the peering table holds a record under the host of the
    service endpoint, the resolution does not probe the host and does not
    touch the peering table, and the actor record of a successful resolution
    points to that very record. *)
Theorem createExternalUser_known_host :
  forall env did s doc svc rest durl,
    GetDocument env did = inr doc ->
    Doc.Service doc = svc :: rest ->
    service_url env svc = inr durl ->
    db_fault env (FindPDS (URL.Host durl)) = None ->
    PDS.ID (find_pds (URL.Host durl) (pdss s)) <> 0 ->
    pdss (snd (createExternalUser env did s)) = pdss s
    /\ probes (snd (createExternalUser env did s)) = probes s
    /\ forall subj,
         fst (createExternalUser env did s) = Ret subj ->
         ActorInfo.PDS subj = PDS.ID (find_pds (URL.Host durl) (pdss s)).
Proof.
  intros env did s doc svc rest durl Hdoc Hsvc Hurl Hf Hnz.
  rewrite (createExternalUser_from_peering env did s doc svc rest durl
             Hdoc Hsvc Hurl).
  assert (Hp : peering_for env svc durl (Client.mk (url_String env durl)) s
               = (Ret (find_pds (URL.Host durl) (pdss s)), s)).
  { unfold peering_for, bind, db_Find_pds. rewrite Hf.
    apply Z.eqb_neq in Hnz. rewrite Hnz. reflexivity. }
  rewrite (bind_ret _ _ _ _ _ Hp).
  match goal with
  | |- context [snd (?tail s)] =>
    destruct (tail s) as [r s'] eqn:T;
      apply createExternalUser_after_peering in T as (P & C & S)
  end.
  cbn [fst snd]. unfold probes. rewrite P, C. repeat split. exact S.
Qed.

Lemma createExternalUser_known_host_witness :
  pdss (snd (createExternalUser world "did:plc:alice" peered_state))
    = pdss peered_state
  /\ probes (snd (createExternalUser world "did:plc:alice" peered_state))
     = probes peered_state
  /\ forall subj,
       fst (createExternalUser world "did:plc:alice" peered_state) = Ret subj ->
       ActorInfo.PDS subj
       = PDS.ID (find_pds "pds.example.com" (pdss peered_state)).
Proof.
  apply (createExternalUser_known_host world "did:plc:alice" peered_state
           (Doc.mk [Service.mk pds_endpoint] ["at://alice.example"])
           (Service.mk pds_endpoint) []
           (URL.mk "https" "pds.example.com" ""));
    try reflexivity.
  discriminate.
Defined.

(** X3.  When the host is unknown and its probe fails, the resolution fails
    with the probe's error wrapped, after that one probe: no row of any
    table is written. *)
Theorem createExternalUser_probe_failure :
  forall env did s doc svc rest durl e,
    GetDocument env did = inr doc ->
    Doc.Service doc = svc :: rest ->
    service_url env svc = inr durl ->
    db_fault env (FindPDS (URL.Host durl)) = None ->
    PDS.ID (find_pds (URL.Host durl) (pdss s)) = 0 ->
    HandleResolve env (Client.mk (url_String env durl)) "" = inl e ->
    createExternalUser env did s
    = (Fail (Errorf_w "failed to get accounts config for unrecognized pds: " e),
       with_calls
         (calls s ++ [CallHandleResolve (Client.mk (url_String env durl)) ""])%list
         s).
Proof.
  intros env did s doc svc rest durl e Hdoc Hsvc Hurl Hf Hz Hprobe.
  rewrite (createExternalUser_from_peering env did s doc svc rest durl
             Hdoc Hsvc Hurl).
  apply bind_fail.
  unfold peering_for, bind, db_Find_pds. rewrite Hf, Hz. cbn [Z.eqb].
  unfold emit, on_error. rewrite Hprobe. reflexivity.
Qed.

Lemma createExternalUser_probe_failure_witness :
  createExternalUser silent_peer_world "did:plc:alice" empty_state
  = (Fail (Errorf_w "failed to get accounts config for unrecognized pds: "
             (New "dial: no such host")),
     with_calls [CallHandleResolve pds_client ""] empty_state).
Proof.
  apply (createExternalUser_probe_failure silent_peer_world "did:plc:alice"
           empty_state
           (Doc.mk [Service.mk pds_endpoint] ["at://alice.example"])
           (Service.mk pds_endpoint) []
           (URL.mk "https" "pds.example.com" ""));
    reflexivity.
Defined.

(** ** What a resolution writes *)

Lemma existsb_did_in did rows u :
  In u rows -> User.Did u = did ->
  existsb (fun x => User.Did x =? did)%string rows = true.
Proof.
  intros Hin Hd. apply existsb_exists. exists u. split; [exact Hin |].
  apply String.eqb_eq, Hd.
Qed.

(** X4.  A failed resolution never writes an actor record.  It leaves a
    user row behind in one case only: the row went in and the insert of the
    actor record is the statement that failed, with the error returned. *)
Theorem createExternalUser_failure_leaves :
  forall env did s e s',
    createExternalUser env did s = (Fail e, s') ->
    actors s' = actors s
    /\ (users s' = users s
        \/ exists u a,
             users s' = (users s ++ [u])%list
             /\ User.Did u = did
             /\ ActorInfo.Uid a = User.ID u
             /\ db_fault env (CreateActorInfo a) = Some e).
Proof.
  intros env did s e s' H.
  apply createExternalUser_run in H as (_ & A & [U | (u & a & UA & Ia & F)]).
  - split; [exact A | left; exact U].
  - split; [exact A |]. right. exists u, a.
    destruct UA as (U & _ & D & _). auto.
Qed.

Lemma createExternalUser_failure_leaves_witness :
  actors (with_users [User.mk 1 "alice.example" "did:plc:alice" 1]
            (with_pdss [PDS.mk 1 pds_endpoint "did:web:pds.example.com"]
               (with_calls [CallHandleResolve pds_client ""] empty_state)))
    = actors empty_state
  /\ (users (with_users [User.mk 1 "alice.example" "did:plc:alice" 1]
               (with_pdss [PDS.mk 1 pds_endpoint "did:web:pds.example.com"]
                  (with_calls [CallHandleResolve pds_client ""] empty_state)))
        = users empty_state
      \/ exists u a,
           users (with_users [User.mk 1 "alice.example" "did:plc:alice" 1]
                    (with_pdss [PDS.mk 1 pds_endpoint "did:web:pds.example.com"]
                       (with_calls [CallHandleResolve pds_client ""]
                          empty_state)))
             = (users empty_state ++ [u])%list
           /\ User.Did u = "did:plc:alice"
           /\ ActorInfo.Uid a = User.ID u
           /\ db_fault broken_db_world (CreateActorInfo a)
              = Some (New "disk full")).
Proof.
  apply (createExternalUser_failure_leaves broken_db_world "did:plc:alice"
           empty_state (New "disk full")).
  reflexivity.
Defined.



(** X6.  For an identifier that already has a user row the resolution
    never succeeds and writes neither a user row nor an actor record,
    whatever the directory and the peer answer. *)
Theorem createExternalUser_existing_did :
  forall env did s u0,
    In u0 (users s) -> User.Did u0 = did ->
    users (snd (createExternalUser env did s)) = users s
    /\ actors (snd (createExternalUser env did s)) = actors s
    /\ forall subj, fst (createExternalUser env did s) <> Ret subj.
Proof.
  intros env did s u0 Hin Hd.
  pose proof (existsb_did_in did (users s) u0 Hin Hd) as Ex.
  destruct (createExternalUser env did s) as [r s'] eqn:H.
  apply createExternalUser_run in H as (_ & H). cbn [fst snd].
  assert (No : forall u, user_added did s s' u -> False).
  { intros u (_ & _ & _ & _ & Xd & _). rewrite Ex in Xd. discriminate. }
  destruct r as [subj | e | ].
  - destruct H as (doc & c & profile & u & _ & _ & _ & _ & _ & UA & _).
    destruct (No u UA).
  - destruct H as (A & [U | (u & a & UA & _)]); [| destruct (No u UA)].
    repeat split; auto. discriminate.
  - destruct H as (_ & u & c & profile & UA & _). destruct (No u UA).
Qed.

Lemma createExternalUser_existing_did_witness :
  users (snd (createExternalUser world "did:plc:alice" alice_known))
    = users alice_known
  /\ actors (snd (createExternalUser world "did:plc:alice" alice_known))
     = actors alice_known
  /\ forall subj,
       fst (createExternalUser world "did:plc:alice" alice_known) <> Ret subj.
Proof.
  apply (createExternalUser_existing_did world "did:plc:alice" alice_known
           (User.mk 1 "alice.example" "did:plc:alice" 1)).
  - left. reflexivity.
  - reflexivity.
Defined.

(** ** References between the tables *)

Lemma pds_step_incl env s s' p :
  pds_step env s s' -> In p (pdss s) -> In p (pdss s').
Proof.
  intros [(P & _) | (c & _ & [P | (pdsdid & q & _ & P & _)])] Hin;
    rewrite P; auto.
  apply in_or_app. left. exact Hin.
Qed.

(** The users table after a resolution: as before, or one row more. *)
Lemma createExternalUser_users env did s :
  users (snd (createExternalUser env did s)) = users s
  \/ exists u, user_added did s (snd (createExternalUser env did s)) u.
Proof.
  destruct (createExternalUser env did s) as [r s'] eqn:H.
  apply createExternalUser_run in H as (_ & H). cbn [snd].
  destruct r as [subj | e | ].
  - destruct H as (doc & c & profile & u & _ & _ & _ & _ & _ & UA & _). eauto.
  - destruct H as (_ & [U | (u & a & UA & _)]); eauto.
  - destruct H as (_ & u & c & profile & UA & _). eauto.
Qed.

Lemma createExternalUser_references env did s :
  users_reference_pdss s ->
  users_reference_pdss (snd (createExternalUser env did s)).
Proof.
  intros R.
  assert (P : pds_step env s (snd (createExternalUser env did s))).
  { destruct (createExternalUser env did s) as [r s'] eqn:H.
    apply createExternalUser_run in H as (P & _). exact P. }
  assert (Old : forall u, In u (users s) ->
                          exists p, In p (pdss (snd (createExternalUser env did s)))
                                    /\ PDS.ID p = User.PDS u).
  { intros u Hin. destruct (R u Hin) as (p & Hp & E). exists p.
    split; [eapply pds_step_incl; eauto | exact E]. }
  destruct (createExternalUser_users env did s) as [U | (u & UA)];
    intros x Hin.
  - rewrite U in Hin. auto.
  - destruct UA as (U & _ & _ & (p & Hp & E & _) & _). rewrite U in Hin.
    apply in_app_or in Hin as [Hin | [<- | []]]; [auto |].
    exists p. auto.
Qed.

(** The tables after an event: as before, or as the resolution of its
    repository left them. *)
Lemma handleFedEvent_tables env host evt s :
  (users (snd (handleFedEvent env host evt s)) = users s
   /\ pdss (snd (handleFedEvent env host evt s)) = pdss s
   /\ actors (snd (handleFedEvent env host evt s)) = actors s)
  \/ (users (snd (handleFedEvent env host evt s))
        = users (snd (createExternalUser env (RepoEvent.Repo evt) s))
      /\ pdss (snd (handleFedEvent env host evt s))
         = pdss (snd (createExternalUser env (RepoEvent.Repo evt) s))
      /\ actors (snd (handleFedEvent env host evt s))
         = actors (snd (createExternalUser env (RepoEvent.Repo evt) s))).
Proof.
  destruct (RepoEvent.RepoAppend evt) as [ra |] eqn:Hra.
  2: { left. unfold handleFedEvent. rewrite Hra. repeat split. }
  assert (K : forall u s1,
             event_user env (RepoEvent.Repo evt) s = (Ret u, s1) ->
             users (snd (handleFedEvent env host evt s)) = users s1
             /\ pdss (snd (handleFedEvent env host evt s)) = pdss s1
             /\ actors (snd (handleFedEvent env host evt s)) = actors s1).
  { intros u s1 E.
    rewrite (handleFedEvent_known_user env host evt ra s u s1 Hra E).
    cbv zeta.
    destruct (HandleExternalUserEvent env (PDS.ID host) (User.ID u)
                (RepoAppend.Prev ra) (RepoAppend.Ops ra) (RepoAppend.Car ra))
      as [err |]; [| repeat split].
    destruct (errors_Is err ErrRepoBaseMismatch); [| repeat split].
    destruct (LookupUser env (actors s1) (User.ID u)); repeat split. }
  assert (F : forall x s1,
             event_user env (RepoEvent.Repo evt) s = (x, s1) ->
             (forall u, x <> Ret u) ->
             snd (handleFedEvent env host evt s) = s1).
  { intros x s1 E Hx. unfold handleFedEvent. rewrite Hra.
    destruct x as [u | e | ].
    - destruct (Hx u eq_refl).
    - rewrite (bind_fail _ _ _ _ _ E). reflexivity.
    - rewrite (bind_panic _ _ _ _ E). reflexivity. }
  destruct (event_user env (RepoEvent.Repo evt) s) as [x s1] eqn:E.
  pose proof E as E0. unfold event_user, on_error in E.
  destruct (lookupUserByDid env (RepoEvent.Repo evt) s) as [[u | e | ] t] eqn:L;
    apply lookupUserByDid_inv in L as (-> & L).
  - inv E. left. apply (K _ _ eq_refl).
  - destruct (negb (errors_Is e ErrRecordNotFound)).
    + inv E. left. rewrite (F _ _ eq_refl); [repeat split | discriminate].
    + right. unfold bind, on_error in E.
      destruct (createExternalUser env (RepoEvent.Repo evt) s)
        as [[subj | e' | ] t]; inv E; cbn [snd].
      * apply (K _ _ eq_refl).
      * rewrite (F _ _ eq_refl); [repeat split | discriminate].
      * rewrite (F _ _ eq_refl); [repeat split | discriminate].
  - destruct L as [L _]. destruct (L eq_refl).
Qed.

(** X8.  Both entry points keep the reference from users to peering
    records intact: if every user row points to a row of the peering table
    before, every user row does so afterwards. *)
Theorem handlers_keep_references :
  forall env s,
    users_reference_pdss s ->
    (forall did, users_reference_pdss (snd (createExternalUser env did s)))
    /\ (forall host evt,
           users_reference_pdss (snd (handleFedEvent env host evt s))).
Proof.
  intros env s R. split.
  - intros did. apply createExternalUser_references, R.
  - intros host evt.
    pose proof (createExternalUser_references env (RepoEvent.Repo evt) s R)
      as R'.
    destruct (handleFedEvent_tables env host evt s)
      as [(U & P & _) | (U & P & _)];
      unfold users_reference_pdss in *; rewrite U, P; assumption.
Qed.

Lemma handlers_keep_references_witness :
  (forall did, users_reference_pdss (snd (createExternalUser world did alice_known)))
  /\ (forall host evt,
         users_reference_pdss (snd (handleFedEvent world host evt alice_known))).
Proof.
  apply (handlers_keep_references world alice_known).
  intros u [<- | []]. exists (PDS.mk 1 pds_endpoint "did:web:pds.example.com").
  split; [left; reflexivity | reflexivity].
Defined.

(** ** More on the ingestion router *)

(** X9.  When the lookup of the user fails with an error that is not
    [ErrRecordNotFound], not even down its chain, the handler returns that
    error wrapped and does nothing else: no resolution, no merge attempt, no
    change of any table. *)
Theorem handleFedEvent_lookup_error :
  forall env host evt ra s e,
    RepoEvent.RepoAppend evt = Some ra ->
    db_fault env (FindUser (RepoEvent.Repo evt)) = Some e ->
    errors_Is e ErrRecordNotFound = false ->
    handleFedEvent env host evt s
    = (Fail (Errorf_w "looking up event user: " e), s).
Proof.
  intros env host evt ra s e Hra Hf Hnot.
  unfold handleFedEvent. rewrite Hra. apply bind_fail.
  unfold event_user, on_error, lookupUserByDid, bind, db_Find_user.
  rewrite Hf, Hnot. reflexivity.
Qed.

Lemma handleFedEvent_lookup_error_witness :
  handleFedEvent broken_db_world source_host
    (append_event 5 "did:plc:alice" "head") alice_known
  = (Fail (Errorf_w "looking up event user: " (New "database is locked")),
     alice_known).
Proof.
  apply (handleFedEvent_lookup_error broken_db_world source_host
           (append_event 5 "did:plc:alice" "head")
           (RepoAppend.mk (Some "head") [] []) alice_known
           (New "database is locked"));
    reflexivity.
Defined.

(** X10.  For a repository whose user row is found and whose merge goes
    through, the handler returns without error after exactly one merge
    attempt, made with the key of the source host and the key of that row;
    nothing else is called and no table changes. *)
Theorem handleFedEvent_known_user_merged :
  forall env host evt ra s u,
    RepoEvent.RepoAppend evt = Some ra ->
    lookupUserByDid env (RepoEvent.Repo evt) s = (Ret u, s) ->
    HandleExternalUserEvent env (PDS.ID host) (User.ID u) (RepoAppend.Prev ra)
      (RepoAppend.Ops ra) (RepoAppend.Car ra) = None ->
    handleFedEvent env host evt s
    = (Ret tt,
       with_calls
         (calls s ++ [CallHandleExternalUserEvent (PDS.ID host) (User.ID u)
                        (RepoAppend.Prev ra) (RepoAppend.Ops ra)
                        (RepoAppend.Car ra)])%list s).
Proof.
  intros env host evt ra s u Hra Hu Hm.
  assert (E : event_user env (RepoEvent.Repo evt) s = (Ret u, s)).
  { unfold event_user, on_error. rewrite Hu. reflexivity. }
  rewrite (handleFedEvent_known_user env host evt ra s u s Hra E).
  cbv zeta. rewrite Hm. reflexivity.
Qed.

Lemma handleFedEvent_known_user_merged_witness :
  handleFedEvent world source_host (append_event 6 "did:plc:alice" "head")
    alice_known
  = (Ret tt,
     with_calls
       (calls alice_known
        ++ [CallHandleExternalUserEvent 1 1 (Some "head") [] []])%list
       alice_known).
Proof.
  apply (handleFedEvent_known_user_merged world source_host
           (append_event 6 "did:plc:alice" "head")
           (RepoAppend.mk (Some "head") [] []) alice_known
           (User.mk 1 "alice.example" "did:plc:alice" 1));
    reflexivity.
Defined.

(** X11.  One event causes at most one merge attempt and at most one
    catch-up item, and never a subscription to a host.  A merge attempt is
    made for append events only, with the key of the source host and the
    previous revision of the event; an item is enqueued only after a merge
    attempt of this call that the merge engine rejected as a base mismatch,
    and it carries the source host and the event themselves. *)
Theorem handleFedEvent_effects :
  forall env host evt s,
    targets (snd (handleFedEvent env host evt s)) = targets s
    /\ ((merge_calls (snd (handleFedEvent env host evt s)) = merge_calls s
         /\ catchup_queue (snd (handleFedEvent env host evt s))
            = catchup_queue s)
        \/ exists ra uid,
             RepoEvent.RepoAppend evt = Some ra
             /\ merge_calls (snd (handleFedEvent env host evt s))
                = (merge_calls s
                   ++ [(PDS.ID host, uid, RepoAppend.Prev ra)])%list
             /\ (catchup_queue (snd (handleFedEvent env host evt s))
                   = catchup_queue s
                 \/ exists err ai,
                      HandleExternalUserEvent env (PDS.ID host) uid
                        (RepoAppend.Prev ra) (RepoAppend.Ops ra)
                        (RepoAppend.Car ra) = Some err
                      /\ errors_Is err ErrRepoBaseMismatch = true
                      /\ catchup_queue (snd (handleFedEvent env host evt s))
                         = (catchup_queue s ++ [(host, ai, evt)])%list)).
Proof.
  intros env host evt s.
  destruct (RepoEvent.RepoAppend evt) as [ra |] eqn:Hra.
  2: { unfold handleFedEvent. rewrite Hra. split; [reflexivity |].
       left. split; reflexivity. }
  destruct (event_user env (RepoEvent.Repo evt) s) as [[u | e | ] s1] eqn:E.
  - rewrite (handleFedEvent_known_user env host evt ra s u s1 Hra E).
    cbv zeta. apply event_user_inv in E as ((Qc & Qm & Qt) & _).
    assert (Tm : targets (merged host (User.ID u) ra s1) = targets s).
    { unfold merged. rewrite targets_emit, app_nil_r. exact Qt. }
    assert (Mm : merge_calls (merged host (User.ID u) ra s1)
                 = (merge_calls s
                    ++ [(PDS.ID host, User.ID u, RepoAppend.Prev ra)])%list).
    { rewrite merge_calls_merged, Qm. reflexivity. }
    assert (Cm : catchup_queue (merged host (User.ID u) ra s1)
                 = catchup_queue s).
    { rewrite catchup_queue_merged. exact Qc. }
    destruct (HandleExternalUserEvent env (PDS.ID host) (User.ID u)
                (RepoAppend.Prev ra) (RepoAppend.Ops ra) (RepoAppend.Car ra))
      as [err |] eqn:Hm.
    + destruct (errors_Is err ErrRepoBaseMismatch) eqn:B.
      * destruct (LookupUser env (actors s1) (User.ID u)) as [e | ai];
          cbn [snd].
        -- split; [exact Tm |]. right. exists ra, (User.ID u).
           split; [reflexivity |]. split; [exact Mm | left; exact Cm].
        -- rewrite targets_emit, merge_calls_emit, catchup_queue_emit,
             !app_nil_r.
           split; [exact Tm |]. right. exists ra, (User.ID u).
           split; [reflexivity |]. split; [exact Mm |]. right.
           exists err, ai. rewrite Cm. auto.
      * cbn [snd]. split; [exact Tm |]. right. exists ra, (User.ID u).
        split; [reflexivity |]. split; [exact Mm | left; exact Cm].
    + cbn [snd]. split; [exact Tm |]. right. exists ra, (User.ID u).
      split; [reflexivity |]. split; [exact Mm | left; exact Cm].
  - unfold handleFedEvent. rewrite Hra, (bind_fail _ _ _ _ _ E). cbn [snd].
    apply event_user_inv in E as ((Qc & Qm & Qt) & _).
    split; [exact Qt |]. left. split; assumption.
  - unfold handleFedEvent. rewrite Hra, (bind_panic _ _ _ _ E). cbn [snd].
    apply event_user_inv in E as ((Qc & Qm & Qt) & _).
    split; [exact Qt |]. left. split; assumption.
Qed.

(** X12.  An append event for a repository without a user row, whose
    peer reports a profile without display name: when the resolution gets
    as far as the insert of the user row, the handler panics right after
    it.  The row is then in the users table with no actor record beside it,
    and neither a merge attempt nor a catch-up entry has been made. *)
Theorem handleFedEvent_panic :
  forall env host evt ra s doc svc rest durl peering s1 profile u s2,
    RepoEvent.RepoAppend evt = Some ra ->
    db_fault env (FindUser (RepoEvent.Repo evt)) = None ->
    (forall u0, In u0 (users s) -> User.Did u0 <> RepoEvent.Repo evt) ->
    GetDocument env (RepoEvent.Repo evt) = inr doc ->
    Doc.Service doc = svc :: rest ->
    service_url env svc = inr durl ->
    peering_for env svc durl (Client.mk (url_String env durl)) s
      = (Ret peering, s1) ->
    candidate_handle env doc = inr (Profile.Handle profile) ->
    ActorGetProfile env (Client.mk (url_String env durl)) (RepoEvent.Repo evt)
      = inr profile ->
    Profile.DisplayName profile = None ->
    db_Create_user env
      (User.mk 0 (Profile.Handle profile) (RepoEvent.Repo evt) (PDS.ID peering))
      s1 = (Ret u, s2) ->
    handleFedEvent env host evt s = (Panic, s2)
    /\ users s2 = (users s ++ [u])%list
    /\ User.Did u = RepoEvent.Repo evt
    /\ actors s2 = actors s
    /\ merge_calls s2 = merge_calls s
    /\ catchup_queue s2 = catchup_queue s.
Proof.
  intros env host evt ra s doc svc rest durl peering s1 profile u s2
    Hra Hf Hno Hdoc Hsvc Hurl Hpeer Hh Hp Hd Hu.
  pose proof (createExternalUser_nil_display_name env _ s doc svc rest durl
                peering s1 profile u s2 Hdoc Hsvc Hurl Hpeer Hh Hp Hd Hu)
    as C.
  split.
  - unfold handleFedEvent. rewrite Hra. apply bind_panic.
    rewrite (event_user_unknown env _ s Hf Hno), C. reflexivity.
  - apply peering_for_quiet in Hpeer as (U1 & A1 & (Qc & Qm & _)).
    apply db_Create_user_run in Hu
      as [(e & E & _) | (u' & E & Eu & -> & _)]; [discriminate |].
    injection E as <-. subst u. cbn [users actors with_users User.Did].
    rewrite U1. repeat split; auto.
Qed.

Lemma handleFedEvent_panic_witness :
  handleFedEvent world source_host (append_event 5 "did:plc:dave" "head")
    empty_state = (Panic, dave_half_known)
  /\ users dave_half_known
     = (users empty_state ++ [User.mk 1 "dave.example" "did:plc:dave" 1])%list
  /\ User.Did (User.mk 1 "dave.example" "did:plc:dave" 1) = "did:plc:dave"
  /\ actors dave_half_known = actors empty_state
  /\ merge_calls dave_half_known = merge_calls empty_state
  /\ catchup_queue dave_half_known = catchup_queue empty_state.
Proof.
  apply (handleFedEvent_panic world source_host
           (append_event 5 "did:plc:dave" "head")
           (RepoAppend.mk (Some "head") [] []) empty_state
           (Doc.mk [Service.mk pds_endpoint] ["at://dave.example"])
           (Service.mk pds_endpoint) []
           (URL.mk "https" "pds.example.com" "")
           (PDS.mk 1 pds_endpoint "did:web:pds.example.com")
           (with_pdss [PDS.mk 1 pds_endpoint "did:web:pds.example.com"]
              (with_calls [CallHandleResolve pds_client ""] empty_state))
           (Profile.mk "dave.example" None (DeclRef.mk "bafydave"))
           (User.mk 1 "dave.example" "did:plc:dave" 1) dave_half_known);
    try reflexivity.
  intros u0 [].
Defined.

(** X13.  The error of the directory is kept as text only: when the
    document of an unknown repository cannot be fetched, the handler returns
    the error of the resolution wrapped, no table and no call log changes,
    and [errors.Is] finds none of the sentinel errors in what is returned,
    even when the directory itself failed with one of them. *)
Theorem handleFedEvent_directory_error :
  forall env host evt ra s e,
    RepoEvent.RepoAppend evt = Some ra ->
    db_fault env (FindUser (RepoEvent.Repo evt)) = None ->
    (forall u, In u (users s) -> User.Did u <> RepoEvent.Repo evt) ->
    GetDocument env (RepoEvent.Repo evt) = inl e ->
    handleFedEvent env host evt s
    = (Fail (Errorf_w "fed event create external user: "
               (Errorf_s "could not locate DID document for followed user: "
                  e)), s)
    /\ forall target,
         errors_Is (Errorf_w "fed event create external user: "
                      (Errorf_s
                         "could not locate DID document for followed user: " e))
           target = false.
Proof.
  intros env host evt ra s e Hra Hf Hno Hdoc. split; [| reflexivity].
  unfold handleFedEvent. rewrite Hra. apply bind_fail.
  rewrite (event_user_unknown env _ s Hf Hno).
  unfold createExternalUser, bind, on_error. rewrite Hdoc. reflexivity.
Qed.

Lemma handleFedEvent_directory_error_witness :
  handleFedEvent dark_world source_host
    (append_event 5 "did:plc:alice" "head") empty_state
  = (Fail (Errorf_w "fed event create external user: "
             (Errorf_s "could not locate DID document for followed user: "
                (Sentinel ErrRecordNotFound))), empty_state)
  /\ forall target,
       errors_Is (Errorf_w "fed event create external user: "
                    (Errorf_s
                       "could not locate DID document for followed user: "
                       (Sentinel ErrRecordNotFound)))
         target = false.
Proof.
  apply (handleFedEvent_directory_error dark_world source_host
           (append_event 5 "did:plc:alice" "head")
           (RepoAppend.mk (Some "head") [] []) empty_state
           (Sentinel ErrRecordNotFound) eq_refl eq_refl).
  - intros u [].
  - reflexivity.
Defined.

(** ** More on the HTTP surface *)

Lemma handleAddTarget_with_host env body s :
  addTargetBody.Host body <> "" ->
  handleAddTarget env (inr body) s
  = (match SubscribeToPds env (addTargetBody.Host body) with
     | None => Ret tt
     | Some e => Fail e
     end,
     with_calls (calls s ++ [CallSubscribeToPds (addTargetBody.Host body)])%list
       s).
Proof.
  intros Hne. unfold handleAddTarget, bind. cbn [lift ret].
  apply String.eqb_neq in Hne. rewrite Hne. cbn [emit]. unfold check.
  destruct (SubscribeToPds env (addTargetBody.Host body)); reflexivity.
Qed.

(** X14.  Whatever the body, [handleAddTarget] touches no table and makes
    no merge attempt and no catch-up entry; it asks the slurper for at most
    one host, which is then the non-empty host of the body; and a body that
    could not be bound gives back the error of the binding, with no call
    made. *)
Theorem handleAddTarget_effects :
  forall env bound s,
    users (snd (handleAddTarget env bound s)) = users s
    /\ pdss (snd (handleAddTarget env bound s)) = pdss s
    /\ actors (snd (handleAddTarget env bound s)) = actors s
    /\ merge_calls (snd (handleAddTarget env bound s)) = merge_calls s
    /\ catchup_queue (snd (handleAddTarget env bound s)) = catchup_queue s
    /\ (targets (snd (handleAddTarget env bound s)) = targets s
        \/ exists body,
             bound = inr body /\ addTargetBody.Host body <> ""
             /\ targets (snd (handleAddTarget env bound s))
                = (targets s ++ [addTargetBody.Host body])%list)
    /\ (forall e, bound = inl e -> handleAddTarget env bound s = (Fail e, s)).
Proof.
  intros env [e | body] s.
  - unfold handleAddTarget, bind; cbn [lift fail ret].
    repeat split; auto. intros e' E. inv E. reflexivity.
  - destruct (String.eqb_spec (addTargetBody.Host body) "") as [Hh | Hh].
    + unfold handleAddTarget, bind; cbn [lift fail ret].
      apply String.eqb_eq in Hh. rewrite Hh.
      repeat split; auto. discriminate.
    + rewrite (handleAddTarget_with_host env body s Hh). cbn [snd].
      rewrite merge_calls_emit, catchup_queue_emit, targets_emit, !app_nil_r.
      repeat split; auto.
      * right. exists body. auto.
      * discriminate.
Qed.

Lemma cancels_app t t' : cancels (t ++ t') = (cancels t + cancels t')%nat.
Proof. unfold cancels. rewrite filter_app, length_app. reflexivity. Qed.

Lemma writes_app t t' : writes (t ++ t') = (writes t ++ writes t')%list.
Proof. unfold writes. apply filter_app. Qed.

Lemma events_written_app t t' :
  events_written (t ++ t') = (events_written t ++ events_written t')%list.
Proof. unfold events_written. apply flat_map_app. Qed.

Lemma stream_no_cancel w h evts :
  forall i, cancels (snd (stream w h i evts)) = 0%nat
            /\ writes (snd (stream w h i evts)) = snd (stream w h i evts).
Proof.
  induction evts as [| evt rest IH]; intros i; cbn [stream];
    [split; reflexivity |].
  destruct (write_fault w i SNextWriter); [split; reflexivity |].
  destruct (write_fault w i SHeader); [split; reflexivity |].
  destruct (write_fault w i SEvent); [split; reflexivity |].
  destruct (write_fault w i SClose); [split; reflexivity |].
  specialize (IH (S i)). destruct (stream w h (S i) rest) as [r t].
  cbn [snd] in *. destruct IH as [IHc IHw]. split.
  - rewrite cancels_app, IHc. reflexivity.
  - rewrite writes_app, IHw. reflexivity.
Qed.

(** X15.  The subscription is cancelled exactly when it was obtained, once,
    and as the last thing the handler does; a request that fails before it
    has a subscription writes nothing to the connection; and no request
    subscribes twice. *)
Theorem EventsHandler_cancel :
  forall w hdr,
    (cancels (snd (EventsHandler w hdr)) <= 1)%nat
    /\ (cancels (snd (EventsHandler w hdr)) = 1%nat
        <-> exists since evts,
              Upgrade w = None
              /\ since_cursor (Header_Get hdr) = inr since
              /\ Subscribe w events_filter since = inr evts)
    /\ (cancels (snd (EventsHandler w hdr)) = 1%nat ->
        exists t, snd (EventsHandler w hdr) = (t ++ [IoCancel])%list
                  /\ cancels t = 0%nat)
    /\ (cancels (snd (EventsHandler w hdr)) = 0%nat ->
        writes (snd (EventsHandler w hdr)) = [])
    /\ (length (subscriptions (snd (EventsHandler w hdr))) <= 1)%nat.
Proof.
  intros w hdr. unfold EventsHandler.
  destruct (Upgrade w) as [e |] eqn:Hu.
  { cbn. repeat split; try lia; try discriminate.
    intros (since & evts & E & _). discriminate. }
  destruct (since_cursor (Header_Get hdr)) as [e | since] eqn:Hs.
  { cbn. repeat split; try lia; try discriminate.
    intros (since & evts & _ & E & _). discriminate. }
  destruct (Subscribe w events_filter since) as [e | evts] eqn:Hsub.
  { cbn. repeat split; try lia; try discriminate.
    intros (since' & evts & _ & E & E'). inv E. rewrite Hsub in E'.
    discriminate. }
  pose proof (stream_no_cancel w (EventHeader.mk "data") evts 0%nat)
    as [Hc _].
  pose proof (stream_no_subscribe w (EventHeader.mk "data") evts 0%nat)
    as [Hn _].
  destruct (stream w (EventHeader.mk "data") 0 evts) as [r t].
  cbn [snd] in *.
  assert (C1 : cancels ([IoSubscribe events_filter since] ++ t ++ [IoCancel])
               = 1%nat).
  { rewrite !cancels_app, Hc. reflexivity. }
  rewrite C1. split; [lia |]. split; [| split; [| split]].
  - split; [intros _; exists since, evts; auto | reflexivity].
  - intros _. exists ([IoSubscribe events_filter since] ++ t)%list.
    split; [rewrite <- app_assoc; reflexivity |].
    rewrite cancels_app, Hc. reflexivity.
  - discriminate.
  - rewrite !subscriptions_app, Hn. cbn. lia.
Qed.

Lemma firstn_snoc_nth {A : Type} (l : list A) n x :
  nth_error l n = Some x -> firstn (S n) l = (firstn n l ++ [x])%list.
Proof.
  revert n. induction l as [| y l IH]; intros [| n] H; cbn in *;
    try discriminate.
  - inv H. reflexivity.
  - rewrite (IH n H). reflexivity.
Qed.

Lemma events_written_frames l :
  events_written (flat_map frame l) = l.
Proof.
  induction l as [| e l IH]; [reflexivity |].
  cbn [flat_map]. rewrite events_written_app, IH. reflexivity.
Qed.

Lemma filter_events_filter l : filter events_filter l = l.
Proof.
  induction l as [| evt rest IH]; cbn; [reflexivity |].
  rewrite IH. reflexivity.
Qed.

(** C10.  Every filter the handler subscribes with accepts every event.
    So, over an event manager that delivers as the spec describes and a
    connection whose writes go through, the handler writes to its
    subscriber every published event the cursor asks for, whatever the
    event: the retained ones after the cursor, then every event published
    afterwards, none left out. *)
Theorem EventsHandler_filter_accepts_all :
  forall w hdr,
    (forall f, In f (filters (snd (EventsHandler w hdr))) ->
               forall evt, f evt = true)
    /\ (forall since retained live,
           Upgrade w = None ->
           since_cursor (Header_Get hdr) = inr since ->
           (forall f cursor,
               Subscribe w f cursor
               = inr (subscription_feed f cursor retained live)) ->
           (forall i st, write_fault w i st = None) ->
           fst (EventsHandler w hdr) = Ret tt
           /\ filters (snd (EventsHandler w hdr)) = [events_filter]
           /\ events_written (snd (EventsHandler w hdr))
              = (after_cursor since retained ++ live)%list).
Proof.
  intros w hdr. split.
  - intros f Hin.
    assert (Hf : f = events_filter).
    { unfold EventsHandler in Hin.
      destruct (Upgrade w); [destruct Hin |].
      destruct (since_cursor (Header_Get hdr)) as [e | since];
        [destruct Hin |].
      destruct (Subscribe w events_filter since) as [e | evts].
      - cbn in Hin. destruct Hin as [E | []]. symmetry. exact E.
      - pose proof (stream_no_subscribe w (EventHeader.mk "data") evts 0%nat)
          as [_ Hn].
        destruct (stream w (EventHeader.mk "data") 0 evts) as [r t].
        cbn [snd] in *. rewrite !filters_app, Hn in Hin. cbn in Hin.
        destruct Hin as [E | []]. symmetry. exact E. }
    subst f. reflexivity.
  - intros since retained live Hu Hs Hsub Hnone.
    rewrite (EventsHandler_all_frames w hdr since _ Hu Hs
               (Hsub events_filter since) Hnone).
    cbn [fst snd]. split; [reflexivity |]. split.
    + rewrite !filters_app.
      assert (N : forall l, filters (flat_map frame l) = []).
      { induction l as [| e l IH]; [reflexivity |].
        cbn [flat_map]. rewrite filters_app, IH. reflexivity. }
      rewrite N. reflexivity.
    + rewrite !events_written_app, events_written_frames.
      cbn [events_written flat_map app]. rewrite app_nil_r.
      unfold subscription_feed. apply filter_events_filter.
Qed.

Lemma EventsHandler_filter_accepts_all_witness :
  (forall evt, events_filter evt = true)
  /\ fst (EventsHandler
            (manager_wire sample_events [append_event 5 "did:plc:bob" "head"])
            (Some "3")) = Ret tt
  /\ filters (snd (EventsHandler
                     (manager_wire sample_events
                        [append_event 5 "did:plc:bob" "head"])
                     (Some "3"))) = [events_filter]
  /\ events_written
       (snd (EventsHandler
               (manager_wire sample_events
                  [append_event 5 "did:plc:bob" "head"])
               (Some "3")))
     = [append_event 4 "did:plc:bob" "head";
        append_event 5 "did:plc:bob" "head"].
Proof.
  split.
  - apply (proj1 (EventsHandler_filter_accepts_all good_wire (Some "2"))
             events_filter).
    left. reflexivity.
  - apply (proj2 (EventsHandler_filter_accepts_all
                    (manager_wire sample_events
                       [append_event 5 "did:plc:bob" "head"])
                    (Some "3"))
             (Some 3) sample_events [append_event 5 "did:plc:bob" "head"]);
      reflexivity.
Defined.

(** X16.  The events written to the connection are a prefix of the events
    delivered, in the order of delivery, none skipped and none repeated;
    and when the handler returns without error, every delivered event was
    written, each in a frame of its own. *)
Theorem EventsHandler_written_in_order :
  forall w hdr since evts,
    Upgrade w = None ->
    since_cursor (Header_Get hdr) = inr since ->
    Subscribe w events_filter since = inr evts ->
    (exists k, events_written (snd (EventsHandler w hdr)) = firstn k evts)
    /\ (fst (EventsHandler w hdr) = Ret tt ->
        events_written (snd (EventsHandler w hdr)) = evts
        /\ writes (snd (EventsHandler w hdr)) = flat_map frame evts).
Proof.
  intros w hdr since evts Hu Hs Hsub.
  rewrite (EventsHandler_subscribed w hdr since evts Hu Hs Hsub).
  cbn [fst snd].
  destruct (stream_spec w evts 0%nat) as (n & partial & E & Hr).
  pose proof (stream_no_cancel w (EventHeader.mk "data") evts 0%nat)
    as [_ Hw].
  destruct (stream w (EventHeader.mk "data") 0 evts) as [r t].
  cbn [fst snd] in *.
  rewrite !events_written_app, !writes_app, Hw.
  cbn [events_written writes flat_map filter app]. rewrite !app_nil_r.
  subst t. rewrite events_written_app, events_written_frames.
  destruct Hr as [(Er & En & Ep & _) | (evt & st & e & Hn & Ep & _ & Er & _)].
  - subst n partial. rewrite firstn_all, !app_nil_r. split.
    + exists (length evts). rewrite firstn_all. reflexivity.
    + intros _. split; reflexivity.
  - split; [| subst r; discriminate].
    subst partial. destruct st; cbn.
    + exists n. rewrite app_nil_r. reflexivity.
    + exists n. rewrite app_nil_r. reflexivity.
    + exists n. rewrite app_nil_r. reflexivity.
    + exists (S n). rewrite (firstn_snoc_nth _ _ _ Hn). reflexivity.
Qed.

Lemma EventsHandler_written_in_order_witness :
  (exists k, events_written (snd (EventsHandler flaky_wire (Some "2")))
             = firstn k sample_events)
  /\ (fst (EventsHandler flaky_wire (Some "2")) = Ret tt ->
      events_written (snd (EventsHandler flaky_wire (Some "2"))) = sample_events
      /\ writes (snd (EventsHandler flaky_wire (Some "2")))
         = flat_map frame sample_events).
Proof.
  apply (EventsHandler_written_in_order flaky_wire (Some "2") (Some 2)
           sample_events);
    reflexivity.
Defined.

(** ** The cursor, digit by digit *)

Lemma is_digit_val c : is_digit c = true -> 0 <= digit_val c <= 9.
Proof.
  unfold is_digit, digit_val. intros H.
  apply andb_true_iff in H as [H1 H2].
  apply Nat.leb_le in H1. apply Nat.leb_le in H2. lia.
Qed.

Lemma is_digit_no_sign c :
  is_digit c = true -> Ascii.eqb c "+" = false /\ Ascii.eqb c "-" = false.
Proof.
  intros H. split.
  - destruct (Ascii.eqb_spec c "+") as [-> |]; [discriminate | reflexivity].
  - destruct (Ascii.eqb_spec c "-") as [-> |]; [discriminate | reflexivity].
Qed.

Lemma digits_value_mono s :
  forall n, all_digits s = true -> 0 <= n -> n <= digits_value s n.
Proof.
  induction s as [| c rest IH]; intros n Hd Hn;
    cbn [digits_value all_digits] in *; [lia |].
  apply andb_true_iff in Hd as [Hc Hr]. pose proof (is_digit_val c Hc).
  specialize (IH (10 * n + digit_val c) Hr). lia.
Qed.

Lemma ParseUint_from_digits s :
  forall n, all_digits s = true -> 0 <= n < 2 ^ 64 ->
            ParseUint_from s n
            = if 2 ^ 64 <=? digits_value s n then inl ErrRange
              else inr (digits_value s n).
Proof.
  induction s as [| c rest IH]; intros n Hd Hn.
  - cbn [ParseUint_from digits_value].
    destruct (Z.leb_spec (2 ^ 64) n); [lia | reflexivity].
  - cbn [ParseUint_from digits_value all_digits] in *.
    apply andb_true_iff in Hd as [Hc Hr]. rewrite Hc.
    pose proof (is_digit_val c Hc) as Hv.
    destruct (Z.leb_spec (2 ^ 64) (10 * n + digit_val c)) as [Hb | Hb].
    + pose proof (digits_value_mono rest (10 * n + digit_val c) Hr
                    ltac:(lia)) as Hm.
      destruct (Z.leb_spec (2 ^ 64) (digits_value rest (10 * n + digit_val c)));
        [reflexivity | lia].
    + apply IH; [exact Hr | lia].
Qed.

Lemma ParseUint_from_inr s :
  forall n m, ParseUint_from s n = inr m ->
              all_digits s = true /\ m = digits_value s n.
Proof.
  induction s as [| c rest IH]; intros n m H;
    cbn [ParseUint_from digits_value all_digits] in *.
  - inv H. split; reflexivity.
  - destruct (is_digit c); [| discriminate].
    destruct (2 ^ 64 <=? 10 * n + digit_val c); [discriminate |].
    apply IH in H. exact H.
Qed.

Lemma ParseUint_inr s m :
  ParseUint s = inr m ->
  s <> "" /\ all_digits s = true /\ m = digits_value s 0 /\ 0 <= m.
Proof.
  unfold ParseUint. destruct s as [| c rest]; [discriminate |].
  intros H. apply ParseUint_from_inr in H as [Hd Hm].
  split; [discriminate |]. split; [exact Hd |]. split; [exact Hm |].
  subst m. apply digits_value_mono; [exact Hd | lia].
Qed.

(** X17.  A cursor that the handler accepts from the header is a 64-bit
    signed integer, and the header spells it in decimal: an optional sign,
    then one digit or more and nothing else (no blank, no underscore, no
    other base).  The handler takes the cursor as missing exactly when the
    header value is empty. *)
Theorem since_cursor_sound :
  forall h,
    (since_cursor h = inr None <-> h = "")
    /\ forall v,
         since_cursor h = inr (Some v) ->
         - 2 ^ 63 <= v < 2 ^ 63
         /\ exists sign body,
              h = sign ++ body
              /\ (sign = "" \/ sign = "+" \/ sign = "-")
              /\ body <> ""
              /\ all_digits body = true
              /\ v = if (sign =? "-")%string then - digits_value body 0
                     else digits_value body 0.
Proof.
  intros h. unfold since_cursor. split.
  - destruct (String.eqb_spec h "") as [-> | Hne].
    + split; reflexivity.
    + split; [| intros E; destruct (Hne E)].
      destruct (ParseInt h); discriminate.
  - intros v H. destruct (String.eqb_spec h "") as [-> | Hne];
      [discriminate |].
    destruct (ParseInt h) as [e | sval] eqn:P; [discriminate |].
    inv H. unfold ParseInt in P.
    destruct h as [| c rest]; [discriminate |].
    change (2 ^ 63) with 9223372036854775808 in *.
    destruct (Ascii.eqb_spec c "+") as [-> | Hplus].
    + cbn in P. destruct (ParseUint rest) as [e | un] eqn:U; [discriminate |].
      apply ParseUint_inr in U as (Hn & Hd & Hm & Hp).
      destruct (9223372036854775808 <=? un) eqn:B; [discriminate |].
      apply Z.leb_gt in B.
      inv P. split; [lia |]. exists "+", rest. repeat split; auto.
    + destruct (Ascii.eqb_spec c "-") as [-> | Hminus].
      * cbn in P.
        destruct (ParseUint rest) as [e | un] eqn:U; [discriminate |].
        apply ParseUint_inr in U as (Hn & Hd & Hm & Hp).
        destruct (9223372036854775808 <? un) eqn:B; [discriminate |].
        apply Z.ltb_ge in B.
        inv P. split; [lia |]. exists "-", rest. repeat split; auto.
      * cbn [orb] in P.
        destruct (ParseUint (String c rest)) as [e | un] eqn:U;
          [discriminate |].
        apply ParseUint_inr in U as (Hn & Hd & Hm & Hp).
        cbn [negb andb] in P.
        destruct (9223372036854775808 <=? un) eqn:B; [discriminate |].
        apply Z.leb_gt in B.
        inv P. split; [lia |]. exists "", (String c rest).
        repeat split; auto.
Qed.

Lemma since_cursor_sound_witness :
  - 2 ^ 63 <= -42 < 2 ^ 63
  /\ exists sign body,
       "-42" = sign ++ body
       /\ (sign = "" \/ sign = "+" \/ sign = "-")
       /\ body <> ""
       /\ all_digits body = true
       /\ -42 = if (sign =? "-")%string then - digits_value body 0
                else digits_value body 0.
Proof.
  apply (proj2 (since_cursor_sound "-42") (-42)). reflexivity.
Defined.

(** X18.  Conversely, every non-empty run of decimal digits whose value
    fits a 64-bit signed integer is accepted, bare or after a plus sign,
    with that value as cursor; after a minus sign it is accepted, with the
    negated value, up to 2^63 included. *)
Theorem since_cursor_complete :
  forall body,
    body <> "" ->
    all_digits body = true ->
    (digits_value body 0 < 2 ^ 63 ->
     since_cursor body = inr (Some (digits_value body 0))
     /\ since_cursor ("+" ++ body) = inr (Some (digits_value body 0)))
    /\ (digits_value body 0 <= 2 ^ 63 ->
        since_cursor ("-" ++ body) = inr (Some (- digits_value body 0))).
Proof.
  intros body Hne Hd.
  assert (U : digits_value body 0 < 2 ^ 64 ->
              ParseUint body = inr (digits_value body 0)).
  { intros Hb. unfold ParseUint. destruct body as [| c rest];
      [destruct (Hne eq_refl) |].
    rewrite (ParseUint_from_digits _ 0 Hd ltac:(lia)).
    destruct (Z.leb_spec (2 ^ 64) (digits_value (String c rest) 0));
      [lia | reflexivity]. }
  assert (Hp : 0 <= digits_value body 0)
    by (apply digits_value_mono; [exact Hd | lia]).
  change (2 ^ 64) with 18446744073709551616 in *.
  change (2 ^ 63) with 9223372036854775808 in *.
  split.
  - intros Hb. split.
    + destruct body as [| c rest]; [destruct (Hne eq_refl) |].
      pose proof Hd as Hd'. cbn [all_digits] in Hd'.
      apply andb_true_iff in Hd' as [Hc _].
      destruct (is_digit_no_sign c Hc) as [Np Nm].
      unfold since_cursor. cbn [String.eqb]. unfold ParseInt.
      rewrite Np, Nm. cbn [orb]. rewrite (U ltac:(lia)). cbn [negb andb].
      change (2 ^ 63) with 9223372036854775808.
      destruct (9223372036854775808 <=? digits_value (String c rest) 0) eqn:B;
        [apply Z.leb_le in B; lia | reflexivity].
    + unfold since_cursor. cbn. rewrite (U ltac:(lia)).
      destruct (9223372036854775808 <=? digits_value body 0) eqn:B;
        [apply Z.leb_le in B; lia | reflexivity].
  - intros Hb. unfold since_cursor. cbn. rewrite (U ltac:(lia)).
    destruct (9223372036854775808 <? digits_value body 0) eqn:B;
      [apply Z.ltb_lt in B; lia | reflexivity].
Qed.

Lemma since_cursor_complete_witness :
  (since_cursor "9223372036854775807" = inr (Some 9223372036854775807)
   /\ since_cursor "+9223372036854775807" = inr (Some 9223372036854775807))
  /\ since_cursor "-9223372036854775807" = inr (Some (-9223372036854775807)).
Proof.
  split.
  - apply (proj1 (since_cursor_complete "9223372036854775807"
                    ltac:(discriminate) eq_refl)).
    reflexivity.
  - apply (proj2 (since_cursor_complete "9223372036854775807"
                    ltac:(discriminate) eq_refl)).
    vm_compute. discriminate.
Defined.
